(** * The query safety gate of pg_mcp/pg_handler.py

    A shallow embedding of [PostgreSQLHandler.is_query_safe],
    [PostgreSQLHandler.validate_database_context] and the checks of
    [PostgreSQLHandler.execute_query] that precede the database round trip,
    with the properties the specification states about them.

    Modelling conventions.
    - A Python [str] is a [string] of bytes.  The character classes used by
      [str.upper], [str.lower], [str.strip] and by the regular expression
      ([\s], [\b]) are the ones Python applies to the ASCII range; bytes
      above 127 are left alone by the case functions and belong to no class.
      The primitives are therefore exact on ASCII text and only there:
      Python also folds some letters outside ASCII into ASCII ones and
      counts some characters outside ASCII as whitespace or word
      characters.  A statement that depends on what these primitives
      compute is made about ASCII text ([is_ascii], [ascii_statement]).
    - [sqlparse] is an external library: its token tree is the inductive
      type [token] (a leaf [sqlparse.sql.Token] with a type tag and a value,
      or a [sqlparse.sql.TokenList] holding children), and [sqlparse.parse]
      is a parameter of the development.
    - A Python function returning [tuple[bool, str]] returns [bool * string];
      a computation that may raise returns [result].
    - The interpreter's recursion limit is taken to be unbounded: the
      recursive walks over a token tree are total functions. *)

From Stdlib Require Import Strings.String Strings.Ascii Lists.List Bool Arith Lia.
From Stdlib Require Import ZArith.
Import ListNotations.
Open Scope string_scope.
Open Scope bool_scope.

(** ** Python string primitives (ASCII range) *)

Module PyStr.

Definition in_range (lo hi : nat) (c : ascii) : bool :=
  (lo <=? nat_of_ascii c)%nat && (nat_of_ascii c <=? hi)%nat.

Definition is_ascii_upper (c : ascii) : bool := in_range 65 90 c.
Definition is_ascii_lower (c : ascii) : bool := in_range 97 122 c.
Definition is_ascii_digit (c : ascii) : bool := in_range 48 57 c.

(** [str.isspace] on the ASCII range: TAB, LF, VT, FF, CR, the four
    separators 0x1c..0x1f, and the space. *)
Definition is_space (c : ascii) : bool :=
  in_range 9 13 c || in_range 28 31 c || (nat_of_ascii c =? 32)%nat.

(** [\w] on the ASCII range: letters, digits and the underscore. *)
Definition is_word (c : ascii) : bool :=
  is_ascii_upper c || is_ascii_lower c || is_ascii_digit c
  || (nat_of_ascii c =? 95)%nat.

Definition upper_char (c : ascii) : ascii :=
  if is_ascii_lower c then ascii_of_nat (nat_of_ascii c - 32) else c.

Definition lower_char (c : ascii) : ascii :=
  if is_ascii_upper c then ascii_of_nat (nat_of_ascii c + 32) else c.

(** [s.upper()], exact on ASCII text. *)
Fixpoint upper (s : string) : string :=
  match s with
  | EmptyString => EmptyString
  | String c s' => String (upper_char c) (upper s')
  end.

(** [s.lower()], exact on ASCII text. *)
Fixpoint lower (s : string) : string :=
  match s with
  | EmptyString => EmptyString
  | String c s' => String (lower_char c) (lower s')
  end.

Fixpoint lstrip (s : string) : string :=
  match s with
  | EmptyString => EmptyString
  | String c s' => if is_space c then lstrip s' else s
  end.

Fixpoint rstrip (s : string) : string :=
  match s with
  | EmptyString => EmptyString
  | String c s' =>
      match rstrip s' with
      | EmptyString => if is_space c then EmptyString else String c EmptyString
      | r => String c r
      end
  end.

(** [s.strip()], exact on ASCII text. *)
Definition strip (s : string) : string := rstrip (lstrip s).

(** [needle in hay] *)
Fixpoint str_in (needle hay : string) : bool :=
  String.prefix needle hay
  || match hay with
     | EmptyString => false
     | String _ hay' => str_in needle hay'
     end.

(** [x in xs] for a list or set of strings *)
Definition mem (x : string) (xs : list string) : bool :=
  existsb (String.eqb x) xs.

End PyStr.

Import PyStr.

(** ** The sqlparse token tree *)

(** The token types of [sqlparse.tokens] the handler tells apart, and a few
    more to write parse trees with.  [T_Newline] is [T.Whitespace.Newline]. *)
Inductive tokentype : Type :=
| T_Keyword
| T_Keyword_DML
| T_Keyword_DDL
| T_Keyword_CTE
| T_Whitespace
| T_Newline
| T_Name
| T_Wildcard
| T_Number
| T_Operator
| T_Punctuation
| T_Other.

Definition tokentype_eqb (a b : tokentype) : bool :=
  match a, b with
  | T_Keyword, T_Keyword | T_Keyword_DML, T_Keyword_DML
  | T_Keyword_DDL, T_Keyword_DDL | T_Keyword_CTE, T_Keyword_CTE
  | T_Whitespace, T_Whitespace | T_Newline, T_Newline
  | T_Name, T_Name | T_Wildcard, T_Wildcard | T_Number, T_Number
  | T_Operator, T_Operator | T_Punctuation, T_Punctuation
  | T_Other, T_Other => true
  | _, _ => false
  end.

(** [Token ty v] is a leaf [sqlparse.sql.Token]; [TokenList ts] is a
    [sqlparse.sql.TokenList] (Identifier, Parenthesis, Function, ...), whose
    [ttype] is [None] and which alone has the attribute [tokens]. *)
#[local] Unset Elimination Schemes.
Inductive token : Type :=
| Token (ty : tokentype) (v : string)
| TokenList (tokens : list token).
#[local] Set Elimination Schemes.

(** A [sqlparse.sql.Statement], given by its [tokens]. *)
Definition statement : Type := list token.

Definition ttype (t : token) : option tokentype :=
  match t with
  | Token ty _ => Some ty
  | TokenList _ => None
  end.

(** [token.ttype is ty] *)
Definition ttype_is (t : token) (ty : tokentype) : bool :=
  match ttype t with
  | Some ty' => tokentype_eqb ty' ty
  | None => false
  end.

(** [token.is_whitespace]: the type tag lies in [T.Whitespace]. *)
Definition is_whitespace (t : token) : bool :=
  ttype_is t T_Whitespace || ttype_is t T_Newline.

(** [str(token)]: the value of a leaf, the concatenated leaves of a group. *)
Fixpoint token_str (t : token) : string :=
  match t with
  | Token _ v => v
  | TokenList ts =>
      (fix go (l : list token) : string :=
         match l with
         | [] => EmptyString
         | x :: r => token_str x ++ go r
         end) ts
  end.

(** [token.value]: for a group it is the group's text. *)
Definition value (t : token) : string := token_str t.

(** [str(statement)] *)
Definition statement_str (st : statement) : string :=
  token_str (TokenList st).

(** ** The handler and its messages *)

Record PostgreSQLHandler : Type := {
  is_chinese : bool;
  database : string;
  allow_dangerous_operations : bool
}.

Definition _get_message (self : PostgreSQLHandler) (zh_msg en_msg : string)
  : string :=
  if is_chinese self then zh_msg else en_msg.

Definition msg_unparsable : string := "无法解析SQL查询".
Definition msg_empty_statement : string := "空的SQL语句".

Definition msg_parse_failed (e : string) : string :=
  "SQL解析失败,查询被拒绝: " ++ e.

Definition msg_disallowed (self : PostgreSQLHandler) (sql_keyword : string)
  : string :=
  _get_message self
    ("不允许的SQL命令: " ++ sql_keyword ++
     "。仅允许SELECT、SHOW、DESCRIBE、EXPLAIN查询,除非在环境变量中启用危险操作。")
    ("Disallowed SQL command: " ++ sql_keyword ++
     ". Only SELECT, SHOW, DESCRIBE, EXPLAIN queries are allowed unless dangerous operations are enabled via environment variable.").

Definition msg_construct (self : PostgreSQLHandler) (description : string)
  : string :=
  _get_message self
    ("检测到危险的" ++ description ++ "操作,查询被拒绝")
    ("Detected dangerous " ++ description ++ " operation, query rejected").

Definition msg_union (self : PostgreSQLHandler) : string :=
  _get_message self
    "检测到UNION操作,可能存在安全风险,查询被拒绝"
    "Detected UNION operation, potential security risk, query rejected".

Definition msg_nested (self : PostgreSQLHandler) (keyword : string) : string :=
  _get_message self
    ("在SELECT语句中检测到危险的" ++ keyword ++ "操作")
    ("Detected dangerous " ++ keyword ++ " operation in SELECT statement").

Definition msg_switch (self : PostgreSQLHandler) : string :=
  "不允许切换数据库。只能在配置的数据库 '" ++ database self ++ "' 中操作。".

Definition msg_schema (m : string) : string :=
  "不允许访问其他schema '" ++ m ++ "'。只能在配置的数据库的public schema中操作。".

(** ** Exceptions *)

(** The outcome of a computation that may raise: [Raise e] carries [str(e)]. *)
Inductive result (A : Type) : Type :=
| Return (a : A)
| Raise (e : string).
Arguments Return {A} a.
Arguments Raise {A} e.

(** ** The safety checks of [PostgreSQLHandler] *)

Definition safe_commands : list string :=
  ["SELECT"; "SHOW"; "DESCRIBE"; "DESC"; "EXPLAIN"; "WITH"].

Definition dangerous_constructs : list (string * string) :=
  [ ("INTO OUTFILE", "SELECT INTO OUTFILE");
    ("COPY ", "COPY命令");
    ("PG_READ_FILE(", "文件读取函数pg_read_file");
    ("PG_LS_DIR(", "目录列表函数pg_ls_dir");
    ("@@", "系统变量访问") ].

Definition dangerous_dml : list string :=
  ["INSERT"; "UPDATE"; "DELETE"; "DROP"; "ALTER"; "CREATE"; "TRUNCATE"; "COPY"].

(** [_extract_sql_keyword]: the three keyword tags give the upper-cased
    value; a group is entered at its first child that is not whitespace;
    everything else, a group without such a child included, falls back on
    [str(token).upper().strip()]. *)
Fixpoint _extract_sql_keyword (tok : token) : string :=
  if ttype_is tok T_Keyword_DML then upper (value tok)
  else if ttype_is tok T_Keyword then upper (value tok)
  else if ttype_is tok T_Keyword_CTE then upper (value tok)
  else
    match tok with
    | TokenList ts =>
        (fix loop (l : list token) : string :=
           match l with
           | [] => strip (upper (token_str tok))
           | sub_token :: r =>
               if negb (is_whitespace sub_token)
               then _extract_sql_keyword sub_token
               else loop r
           end) ts
    | Token _ _ => strip (upper (token_str tok))
    end.

(** The inner function [check_token_recursively] of
    [_check_nested_dangerous_operations]. *)
Fixpoint check_token_recursively (self : PostgreSQLHandler) (tok : token)
  : bool * string :=
  if ttype_is tok T_Keyword_DML && mem (upper (value tok)) dangerous_dml
  then (false, msg_nested self (upper (value tok)))
  else
    match tok with
    | TokenList ts =>
        (fix loop (l : list token) : bool * string :=
           match l with
           | [] => (true, "")
           | sub_token :: r =>
               let '(is_safe, error_msg) :=
                 check_token_recursively self sub_token in
               if negb is_safe then (false, error_msg) else loop r
           end) ts
    | Token _ _ => (true, "")
    end.

Fixpoint _check_nested_dangerous_operations (self : PostgreSQLHandler)
  (st : statement) : bool * string :=
  match st with
  | [] => (true, "")
  | tok :: r =>
      let '(is_safe, error_msg) := check_token_recursively self tok in
      if negb is_safe then (false, error_msg)
      else _check_nested_dangerous_operations self r
  end.

Definition _check_select_safety (self : PostgreSQLHandler) (st : statement)
  : bool * string :=
  let text := upper (statement_str st) in
  match find (fun cd => str_in (fst cd) text) dangerous_constructs with
  | Some (_, description) => (false, msg_construct self description)
  | None =>
      if str_in "UNION" text then (false, msg_union self)
      else _check_nested_dangerous_operations self st
  end.

Definition _check_statement_safety (self : PostgreSQLHandler) (st : statement)
  : bool * string :=
  match find (fun tok => negb (is_whitespace tok)) st with
  | None => (false, msg_empty_statement)
  | Some first_token =>
      let sql_keyword := _extract_sql_keyword first_token in
      if negb (mem sql_keyword safe_commands)
      then (false, msg_disallowed self sql_keyword)
      else if String.eqb sql_keyword "SELECT"
      then _check_select_safety self st
      else (true, "")
  end.

(** The loop of [is_query_safe] over the parsed statements. *)
Fixpoint check_statements (self : PostgreSQLHandler) (parsed : list statement)
  : bool * string :=
  match parsed with
  | [] => (true, "")
  | st :: r =>
      let '(is_safe, error_msg) := _check_statement_safety self st in
      if negb is_safe then (false, error_msg) else check_statements self r
  end.

Section Parser.

(** [sqlparse.parse]: a tuple of statements, or an exception. *)
Variable parse : string -> result (list statement).

(** The body of the [try] block of [is_query_safe]. *)
Definition is_query_safe_body (self : PostgreSQLHandler) (query : string)
  : result (bool * string) :=
  match parse query with
  | Raise e => Raise e
  | Return parsed =>
      match parsed with
      | [] => Return (false, msg_unparsable)
      | _ :: _ => Return (check_statements self parsed)
      end
  end.

Definition is_query_safe (self : PostgreSQLHandler) (query : string)
  : bool * string :=
  if allow_dangerous_operations self then (true, "")
  else
    match is_query_safe_body self query with
    | Return decision => decision
    | Raise e => (false, msg_parse_failed e)
    end.

End Parser.

(** ** The fragment of Python's [re] the handler uses

    A backtracking matcher in the list-of-successes style: [run r p] lists
    the positions at which [r] can end when started at [p], in the order in
    which the backtracking engine of [re] tries them (first alternative
    first, longest repetition first).  The head of the list is the match
    [re] reports.  The flag [re.IGNORECASE] is built in: a literal matches
    a letter in either case. *)

Module Re.

Inductive regex : Type :=
| Lit (s : string)                 (* literal text *)
| Plus (cls : ascii -> bool)       (* [cls]+, greedy *)
| WordBoundary                     (* \b *)
| Seq (r1 r2 : regex)              (* r1 r2 *)
| Alt (r1 r2 : regex)              (* r1|r2 *)
| Group (r : regex).               (* ( r ), the capturing group *)

(** A position in the subject: the character before it, the text from it
    on, the number of characters consumed since the start of the attempt,
    and the text of the capturing group once it has closed. *)
Record pos : Type := {
  prev : option ascii;
  rest : string;
  consumed : nat;
  group1 : option string
}.

Definition start (before : option ascii) (s : string) : pos :=
  {| prev := before; rest := s; consumed := 0; group1 := None |}.

Definition advance (c : ascii) (s' : string) (p : pos) : pos :=
  {| prev := Some c; rest := s'; consumed := S (consumed p);
     group1 := group1 p |}.

Definition close_group (p0 p : pos) : pos :=
  {| prev := prev p; rest := rest p; consumed := consumed p;
     group1 := Some (substring 0 (consumed p - consumed p0) (rest p0)) |}.

(** Equality of characters under [re.IGNORECASE], exact on ASCII text. *)
Definition ci_eqb (a b : ascii) : bool :=
  Ascii.eqb (lower_char a) (lower_char b).

Fixpoint eat_lit (l : string) (p : pos) : option pos :=
  match l with
  | EmptyString => Some p
  | String a l' =>
      match rest p with
      | String c s' => if ci_eqb a c then eat_lit l' (advance c s' p) else None
      | EmptyString => None
      end
  end.

(** [eat_plus cls s p], with [s = rest p]: every way to take one or more
    characters of the class, the longest first. *)
Fixpoint eat_plus (cls : ascii -> bool) (s : string) (p : pos) : list pos :=
  match s with
  | String c s' =>
      if cls c
      then let p' := advance c s' p in eat_plus cls s' p' ++ [p']
      else []
  | EmptyString => []
  end.

Definition word_opt (c : option ascii) : bool :=
  match c with
  | Some a => is_word a
  | None => false
  end.

Definition next_char (p : pos) : option ascii :=
  match rest p with
  | String c _ => Some c
  | EmptyString => None
  end.

Fixpoint run (r : regex) (p : pos) : list pos :=
  match r with
  | Lit l => match eat_lit l p with Some p' => [p'] | None => [] end
  | Plus cls => eat_plus cls (rest p) p
  | WordBoundary =>
      if xorb (word_opt (prev p)) (word_opt (next_char p)) then [p] else []
  | Seq r1 r2 => flat_map (run r2) (run r1 p)
  | Alt r1 r2 => run r1 p ++ run r2 p
  | Group r1 => map (close_group p) (run r1 p)
  end.

(** The match of [r] that starts exactly here, if any: its length and the
    text of group 1 (empty when the group took no part). *)
Definition match_here (r : regex) (before : option ascii) (s : string)
  : option (nat * string) :=
  match run r (start before s) with
  | p :: _ => Some (consumed p,
                    match group1 p with Some g => g | None => EmptyString end)
  | [] => None
  end.

(** [re.findall] for a pattern with one group: the group of every match,
    scanning from the left; a match is sought at each position that no
    earlier match covers ([skip] counts the characters still covered). *)
Fixpoint findall_from (r : regex) (before : option ascii) (skip : nat)
  (s : string) : list string :=
  match skip with
  | S k =>
      match s with
      | String c s' => findall_from r (Some c) k s'
      | EmptyString => []
      end
  | O =>
      match match_here r before s with
      | Some (n, g) =>
          g :: match s with
               | String c s' => findall_from r (Some c) (pred n) s'
               | EmptyString => []
               end
      | None =>
          match s with
          | String c s' => findall_from r (Some c) 0 s'
          | EmptyString => []
          end
      end
  end.

Definition findall (r : regex) (s : string) : list string :=
  findall_from r None 0 s.

End Re.

(** ** [validate_database_context] and [execute_query] *)

(** [[^\s\.]] *)
Definition not_space_or_dot (c : ascii) : bool :=
  negb (is_space c || Ascii.eqb c ".").

(** [(?:FROM|JOIN|INTO|UPDATE)] *)
Definition keyword_alternatives : Re.regex :=
  Re.Alt (Re.Lit "FROM")
    (Re.Alt (Re.Lit "JOIN") (Re.Alt (Re.Lit "INTO") (Re.Lit "UPDATE"))).

(** [\b(?:FROM|JOIN|INTO|UPDATE)\s+([^\s\.]+)\.] *)
Definition database_pattern : Re.regex :=
  Re.Seq Re.WordBoundary
    (Re.Seq keyword_alternatives
       (Re.Seq (Re.Plus is_space)
          (Re.Seq (Re.Group (Re.Plus not_space_or_dot)) (Re.Lit ".")))).

Definition database_patterns : list Re.regex := [database_pattern].

Definition allowed_schemas : list string :=
  ["public"; "pg_catalog"; "information_schema"].

(** The test of the inner loop: [match.lower() not in [...]]. *)
Definition foreign_schema (m : string) : bool :=
  negb (mem (lower m) allowed_schemas).

(** The two nested loops over the patterns and their matches. *)
Fixpoint check_patterns (patterns : list Re.regex) (query : string)
  : bool * string :=
  match patterns with
  | [] => (true, "")
  | pattern :: r =>
      match find foreign_schema (Re.findall pattern query) with
      | Some m => (false, msg_schema m)
      | None => check_patterns r query
      end
  end.

Definition validate_database_context (self : PostgreSQLHandler)
  (query : string) : bool * string :=
  let query_upper := upper (strip query) in
  if str_in "\C " query_upper || str_in "USE " query_upper
  then (false, msg_switch self)
  else check_patterns database_patterns query.

(** What [execute_query] does before it opens a connection: it returns a
    rejection, or goes on to send the query to the database. *)
Inductive outcome : Type :=
| Rejected (message : string)
| SentToDatabase (query : string).

Definition msg_rejected (self : PostgreSQLHandler) : string :=
  _get_message self "查询被拒绝" "Query rejected".

Section Execute.

Variable parse : string -> result (list statement).

Definition execute_query (self : PostgreSQLHandler) (query : string)
  : outcome :=
  let '(is_safe, safety_msg) := is_query_safe parse self query in
  if negb is_safe
  then Rejected (msg_rejected self ++ ": " ++ safety_msg)
  else
    let '(is_valid_context, context_msg) :=
      validate_database_context self query in
    if negb is_valid_context
    then Rejected (msg_rejected self ++ ": " ++ context_msg)
    else SentToDatabase query.

End Execute.

(** ** Induction on token trees, and their pre-order listing *)

Section TokenInduction.

Variable P : token -> Prop.
Hypothesis P_leaf : forall ty v, P (Token ty v).
Hypothesis P_group : forall ts, Forall P ts -> P (TokenList ts).

Fixpoint token_ind (t : token) : P t :=
  match t with
  | Token ty v => P_leaf ty v
  | TokenList ts =>
      P_group ts
        ((fix all (l : list token) : Forall P l :=
            match l with
            | [] => Forall_nil P
            | x :: r => Forall_cons x (token_ind x) (all r)
            end) ts)
  end.

End TokenInduction.

(** The nodes of a token tree, a parent before its children and the
    children from left to right. *)
Fixpoint preorder (t : token) : list token :=
  t :: match t with
       | Token _ _ => []
       | TokenList ts =>
           (fix go (l : list token) : list token :=
              match l with
              | [] => []
              | x :: r => (preorder x ++ go r)%list
              end) ts
       end.

Definition preorder_statement (st : statement) : list token :=
  flat_map preorder st.

(** The test [check_token_recursively] applies to each node. *)
Definition is_dangerous_dml_token (t : token) : bool :=
  ttype_is t T_Keyword_DML && mem (upper (value t)) dangerous_dml.

(** The first token of a statement that is not whitespace. *)
Definition first_token (st : statement) : option token :=
  find (fun tok => negb (is_whitespace tok)) st.

(** A decision is well formed when its message is empty exactly if it
    allows. *)
Definition well_formed (d : bool * string) : Prop :=
  (fst d = true /\ snd d = "") \/ (fst d = false /\ snd d <> "").

(** ** What the parts of the pattern accept *)

(** Every character of [s] is in the class. *)
Fixpoint all_chars (cls : ascii -> bool) (s : string) : bool :=
  match s with
  | EmptyString => true
  | String c s' => cls c && all_chars cls s'
  end.

(** [k] is the literal [l] up to the case of its letters. *)
Fixpoint ci_equal (l k : string) : bool :=
  match l, k with
  | EmptyString, EmptyString => true
  | String a l', String c k' => Re.ci_eqb a c && ci_equal l' k'
  | _, _ => false
  end.

(** The texts [(?:FROM|JOIN|INTO|UPDATE)] accepts under [re.IGNORECASE]. *)
Definition is_keyword (k : string) : bool :=
  ci_equal "FROM" k || ci_equal "JOIN" k || ci_equal "INTO" k
  || ci_equal "UPDATE" k.

(** The position reached from [p] by consuming [k], when the text at [p]
    is [k ++ r]. *)
Fixpoint skip_over (k r : string) (p : Re.pos) : Re.pos :=
  match k with
  | EmptyString => p
  | String c k' => skip_over k' r (Re.advance c (k' ++ r) p)
  end.

(** ** The specification's reading of two mechanisms, for comparison *)

(** Section 4.2 of the specification sends the verbs SELECT and WITH to
    deep scanning; this is the statement check written that way. *)
Definition spec_check_statement_safety (self : PostgreSQLHandler)
  (st : statement) : bool * string :=
  match first_token st with
  | None => (false, msg_empty_statement)
  | Some tok =>
      let verb := _extract_sql_keyword tok in
      if negb (mem verb safe_commands)
      then (false, msg_disallowed self verb)
      else if mem verb ["SELECT"; "WITH"]
      then _check_select_safety self st
      else (true, "")
  end.

(** Section 4.5 of the specification gives the pattern as
    [(FROM|JOIN|INTO|UPDATE)\s+([^\s.]+)\.], with no word boundary in front;
    the group kept here is the one that captures the identifier. *)
Definition spec_database_pattern : Re.regex :=
  Re.Seq keyword_alternatives
    (Re.Seq (Re.Plus is_space)
       (Re.Seq (Re.Group (Re.Plus not_space_or_dot)) (Re.Lit "."))).

(** [s.split()]: the maximal runs of characters that are not whitespace. *)
Fixpoint split_words (s : string) : list string :=
  match s with
  | EmptyString => []
  | String c s' =>
      if is_space c then split_words s'
      else
        match s' with
        | EmptyString => [String c EmptyString]
        | String c' _ =>
            if is_space c' then String c EmptyString :: split_words s'
            else
              match split_words s' with
              | w :: ws => String c w :: ws
              | [] => [String c EmptyString]
              end
        end
  end.

(** ** Sample handlers, queries and parse trees *)

Definition enforced : PostgreSQLHandler :=
  {| is_chinese := false; database := "appdb";
     allow_dangerous_operations := false |}.

Definition permissive : PostgreSQLHandler :=
  {| is_chinese := false; database := "appdb";
     allow_dangerous_operations := true |}.

Definition ws : token := Token T_Whitespace " ".
Definition kw (s : string) : token := Token T_Keyword s.
Definition dml (s : string) : token := Token T_Keyword_DML s.
Definition punct (s : string) : token := Token T_Punctuation s.
Definition num (s : string) : token := Token T_Number s.
(** An [Identifier] group around one name. *)
Definition ident (s : string) : token := TokenList [Token T_Name s].

Definition q_nested : string :=
  "SELECT * FROM (SELECT 1 FROM (DELETE FROM t RETURNING 1) x) y".

(** [q_nested] as a token tree: each subquery is a [Parenthesis] inside the
    [Identifier] that carries its alias. *)
Definition st_nested : statement :=
  [ dml "SELECT"; ws; Token T_Wildcard "*"; ws; kw "FROM"; ws;
    TokenList
      [ TokenList
          [ punct "("; dml "SELECT"; ws; num "1"; ws; kw "FROM"; ws;
            TokenList
              [ TokenList
                  [ punct "("; dml "DELETE"; ws; kw "FROM"; ws; ident "t";
                    ws; kw "RETURNING"; ws; num "1"; punct ")" ];
                ws; ident "x" ];
            punct ")" ];
        ws; ident "y" ] ].

Definition q_batch : string := "SELECT 1; DELETE FROM orders".

Definition st_batch_1 : statement :=
  [ dml "SELECT"; ws; num "1"; punct ";"; ws ].

Definition st_batch_2 : statement :=
  [ dml "DELETE"; ws; kw "FROM"; ws; ident "orders" ].

Definition q_union : string := "SELECT a FROM t UNION SELECT a FROM t".

Definition st_union : statement :=
  [ dml "SELECT"; ws; ident "a"; ws; kw "FROM"; ws; ident "t"; ws;
    kw "UNION"; ws;
    dml "SELECT"; ws; ident "a"; ws; kw "FROM"; ws; ident "t" ].

Definition q_union_sysvar : string := "SELECT @@version UNION SELECT 1".

Definition st_union_sysvar : statement :=
  [ dml "SELECT"; ws; Token T_Operator "@@"; kw "version"; ws; kw "UNION";
    ws; dml "SELECT"; ws; num "1" ].

Definition q_with : string :=
  "WITH d AS (DELETE FROM t RETURNING id) SELECT id FROM d".

Definition st_with : statement :=
  [ Token T_Keyword_CTE "WITH"; ws;
    TokenList
      [ Token T_Name "d"; ws; kw "AS"; ws;
        TokenList
          [ punct "("; dml "DELETE"; ws; kw "FROM"; ws; ident "t"; ws;
            kw "RETURNING"; ws; ident "id"; punct ")" ] ];
    ws; dml "SELECT"; ws; ident "id"; ws; kw "FROM"; ws; ident "d" ].

Definition q_explain : string := "EXPLAIN ANALYZE DELETE FROM t".

Definition st_explain : statement :=
  [ kw "EXPLAIN"; ws; kw "ANALYZE"; ws; dml "DELETE"; ws; kw "FROM"; ws;
    ident "t" ].

(** A parser that knows the sample queries, returns no statement for the
    empty text and raises on everything else. *)
Definition sample_parse (query : string) : result (list statement) :=
  if String.eqb query q_nested then Return [st_nested]
  else if String.eqb query q_batch then Return [st_batch_1; st_batch_2]
  else if String.eqb query q_union then Return [st_union]
  else if String.eqb query q_union_sysvar then Return [st_union_sysvar]
  else if String.eqb query q_with then Return [st_with]
  else if String.eqb query q_explain then Return [st_explain]
  else if String.eqb query "" then Return []
  else Raise "unexpected input".

(** A parser that always raises. *)
Definition failing_parse (query : string) : result (list statement) :=
  Raise "parser failure".

(** ** ASCII text *)

Definition is_ascii_char (c : ascii) : bool := (nat_of_ascii c <? 128)%nat.

(** Every character of the text is in the ASCII range. *)
Fixpoint is_ascii (s : string) : bool :=
  match s with
  | EmptyString => true
  | String c s' => is_ascii_char c && is_ascii s'
  end.

(** The character in front of a position, if any, is in the ASCII range. *)
Definition ascii_before (before : option ascii) : bool :=
  match before with
  | Some c => is_ascii_char c
  | None => true
  end.

(** Every leaf of the token tree holds ASCII text. *)
Fixpoint ascii_token (t : token) : bool :=
  match t with
  | Token _ v => is_ascii v
  | TokenList ts =>
      (fix all (l : list token) : bool :=
         match l with
         | [] => true
         | x :: r => ascii_token x && all r
         end) ts
  end.

Definition ascii_statement (st : statement) : bool :=
  forallb ascii_token st.

(** ** Further sample statements *)

Definition q_nested_union : string :=
  "SELECT * FROM (DELETE FROM t RETURNING 1) x UNION SELECT 1".

Definition st_nested_union : statement :=
  [ dml "SELECT"; ws; Token T_Wildcard "*"; ws; kw "FROM"; ws;
    TokenList
      [ TokenList
          [ punct "("; dml "DELETE"; ws; kw "FROM"; ws; ident "t"; ws;
            kw "RETURNING"; ws; num "1"; punct ")" ];
        ws; ident "x" ];
    ws; kw "UNION"; ws; dml "SELECT"; ws; num "1" ].

Definition q_with_union : string :=
  "WITH a AS (SELECT 1) SELECT * FROM a UNION SELECT 2".

Definition st_with_union : statement :=
  [ Token T_Keyword_CTE "WITH"; ws;
    TokenList
      [ Token T_Name "a"; ws; kw "AS"; ws;
        TokenList [ punct "("; dml "SELECT"; ws; num "1"; punct ")" ] ];
    ws; dml "SELECT"; ws; Token T_Wildcard "*"; ws; kw "FROM"; ws; ident "a";
    ws; kw "UNION"; ws; dml "SELECT"; ws; num "2" ].

(** A parser that returns one given statement. *)
Definition parse_as (st : statement) (query : string)
  : result (list statement) :=
  Return [st].

(** ** The rest of the handler: construction, table names, database list *)

(** [os.getenv]: the process environment. *)
Definition environ : Type := string -> option string.

(** [os.getenv(name, default)] *)
Definition getenv_default (env : environ) (name default : string) : string :=
  match env name with
  | Some v => v
  | None => default
  end.

(** The truth value of an [Optional[str]]: set and not empty. *)
Definition truthy (v : option string) : bool :=
  match v with
  | Some s => negb (String.eqb s "")
  | None => false
  end.

(** ['zh' in lang.lower() or 'chinese' in lang.lower()] *)
Definition mentions_chinese (lang : string) : bool :=
  str_in "zh" (lower lang) || str_in "chinese" (lower lang).

(** [_detect_chinese_locale]; [default_locale] is the outcome of
    [locale.getdefaultlocale()[0]], which may raise. *)
Definition _detect_chinese_locale (default_locale : result (option string))
  (env : environ) : bool :=
  match default_locale with
  | Raise _ => false
  | Return lang =>
      if truthy lang
         && match lang with Some l => mentions_chinese l | None => false end
      then true
      else
        existsb
          (fun env_var =>
             let lang_env := getenv_default env env_var "" in
             negb (String.eqb lang_env "") && mentions_chinese lang_env)
          ["LANG"; "LANGUAGE"; "LC_ALL"; "LC_MESSAGES"]
  end.

(** [s.split(':', 1)] for a text that holds a colon: what stands before
    the first colon and what stands after it. *)
Fixpoint split_colon (s : string) : string * string :=
  match s with
  | EmptyString => (EmptyString, EmptyString)
  | String c s' =>
      if Ascii.eqb c ":" then (EmptyString, s')
      else let '(h, p) := split_colon s' in (String c h, p)
  end.

(** The connection settings [__init__] stores beside the fields of
    [PostgreSQLHandler]. *)
Record connection_settings : Type := {
  host : string;
  port : Z;
  user : string;
  password : string
}.

Definition bind {A B : Type} (m : result A) (f : A -> result B) : result B :=
  match m with
  | Return a => f a
  | Raise e => Raise e
  end.

(** A variable that must be set and not empty. *)
Definition require_env (env : environ) (name : string) : result string :=
  match env name with
  | Some v => if String.eqb v "" then Raise (name ++ "环境变量未设置")
              else Return v
  | None => Raise (name ++ "环境变量未设置")
  end.

Section Construction.

(** The builtin [int] on a text: an integer, or [ValueError]. *)
Variable int : string -> result Z.

(** [PostgreSQLHandler.__init__], reading the environment [env]. *)
Definition __init__ (default_locale : result (option string)) (env : environ)
  : result (connection_settings * PostgreSQLHandler) :=
  let chinese := _detect_chinese_locale default_locale env in
  bind (require_env env "PG_HOST") (fun pg_host =>
  bind (if str_in ":" pg_host
        then let '(h, port_str) := split_colon pg_host in
             bind (int port_str) (fun n => Return (h, n))
        else Return (pg_host, 5432%Z)) (fun host_port =>
  bind (require_env env "PG_USER") (fun usr =>
  bind (require_env env "PG_PASSWORD") (fun pwd =>
  bind (require_env env "PG_DATABASE") (fun db =>
  Return
    ({| host := fst host_port; port := snd host_port;
        user := usr; password := pwd |},
     {| is_chinese := chinese; database := db;
        allow_dangerous_operations :=
          String.eqb
            (lower (getenv_default env "PG_ALLOW_DANGEROUS" "false"))
            "true" |})))))).

End Construction.

(** [[a-zA-Z_]] *)
Definition is_name_start (c : ascii) : bool :=
  is_ascii_lower c || is_ascii_upper c || (nat_of_ascii c =? 95)%nat.

(** [[a-zA-Z0-9_]*$] from a position on: word characters up to the end of
    the text, or up to a line feed that ends the text -- the two places
    where [$] matches. *)
Fixpoint name_tail (s : string) : bool :=
  match s with
  | EmptyString => true
  | String c s' =>
      if is_word c then name_tail s'
      else Ascii.eqb c "010" && String.eqb s' ""
  end.

(** [re.match(r'^[a-zA-Z_][a-zA-Z0-9_]*$', table_name)] finds a match. *)
Definition valid_table_name (table_name : string) : bool :=
  match table_name with
  | EmptyString => false
  | String c s' => is_name_start c && name_tail s'
  end.

(** [describe_table] up to the point where it opens a connection: the
    exception it raises for a malformed name, or the name it goes on to
    look up. *)
Definition describe_table (table_name : string) : result string :=
  if negb (valid_table_name table_name)
  then Raise ("获取表 '" ++ table_name ++ "' 结构失败: 无效的表名格式")
  else Return table_name.

(** [list_databases] from the point where the rows are back: the
    configured database is marked. *)
Definition list_databases (self : PostgreSQLHandler) (db_list : list string)
  : list string :=
  map (fun db =>
         if String.eqb db (database self)
         then db ++ " (当前配置的数据库)"
         else db)
      db_list.

(** ** Statements up to letter case, and what the statement check admits *)

(** A token tree with every leaf value in upper case. *)
Fixpoint upper_token (t : token) : token :=
  match t with
  | Token ty v => Token ty (upper v)
  | TokenList ts =>
      TokenList
        ((fix go (l : list token) : list token :=
            match l with
            | [] => []
            | x :: r => upper_token x :: go r
            end) ts)
  end.

(** What [_check_statement_safety] admits: a first token that is not
    whitespace, whose keyword is permitted; and, for SELECT, a text free of
    the dangerous substrings and of UNION, over a tree free of mutating DML
    keywords. *)
Definition statement_admissible (st : statement) : Prop :=
  exists tok,
    first_token st = Some tok /\
    In (_extract_sql_keyword tok) safe_commands /\
    (_extract_sql_keyword tok = "SELECT" ->
     (forall construct,
        In construct
           ["INTO OUTFILE"; "COPY "; "PG_READ_FILE("; "PG_LS_DIR("; "@@";
            "UNION"] ->
        str_in construct (upper (statement_str st)) = false) /\
     (forall t, In t (preorder_statement st) ->
        is_dangerous_dml_token t = false)).

(** A stand-in for [int] that reads one port number, and two
    environments: a complete one and one that lacks the password. *)
Definition sample_int (s : string) : result Z :=
  if String.eqb s "6543" then Return 6543%Z
  else Raise "invalid literal for int()".

Definition sample_env : environ :=
  fun name =>
    if String.eqb name "PG_HOST" then Some "db.internal:6543"
    else if String.eqb name "PG_USER" then Some "reader"
    else if String.eqb name "PG_PASSWORD" then Some "s3cret"
    else if String.eqb name "PG_DATABASE" then Some "appdb"
    else if String.eqb name "PG_ALLOW_DANGEROUS" then Some "yes"
    else None.

Definition incomplete_env : environ :=
  fun name =>
    if String.eqb name "PG_HOST" then Some "localhost"
    else if String.eqb name "PG_USER" then Some "reader"
    else if String.eqb name "PG_DATABASE" then Some "appdb"
    else None.

(** ** Qualified references in a query text *)

(** The character in front of the position reached after [pre], when
    [before] stands in front of [pre]. *)
Fixpoint char_before (before : option ascii) (pre : string) : option ascii :=
  match pre with
  | EmptyString => before
  | String c pre' => char_before (Some c) pre'
  end.

(** [query] holds, at a word boundary, one of the four keywords in any
    case, then whitespace, then [name] -- free of whitespace and dots --
    and a dot. *)
Definition schema_reference (query name : string) : Prop :=
  exists pre k sp tail,
    query = pre ++ k ++ sp ++ name ++ "." ++ tail /\
    Re.word_opt (char_before None pre) = false /\
    is_keyword k = true /\
    sp <> "" /\ all_chars is_space sp = true /\
    name <> "" /\ all_chars not_space_or_dot name = true.

(** While [findall] steps over a match it has reported, the text ahead is
    what is left of that match: letters of the keyword, whitespace, the
    captured name and the dot, [skip] characters in all. *)
Definition covered (before : option ascii) (skip : nat) (s : string) : Prop :=
  exists a b c t,
    s = a ++ b ++ c ++ "." ++ t /\
    skip = String.length a + String.length b + String.length c + 1 /\
    all_chars is_word a = true /\
    (a <> "" -> Re.word_opt before = true) /\
    all_chars is_space b = true /\
    all_chars not_space_or_dot c = true.

(** The outcome the nested scan derives from the first offending node. *)
Definition nested_verdict (self : PostgreSQLHandler) (hit : option token)
  : bool * string :=
  match hit with
  | Some t => (false, msg_nested self (upper (value t)))
  | None => (true, "")
  end.

(** ** Auxiliary facts *)

Lemma find_app {A : Type} (f : A -> bool) (l1 l2 : list A) :
  find f (l1 ++ l2)%list =
  match find f l1 with
  | Some x => Some x
  | None => find f l2
  end.
Proof.
  induction l1 as [|a l1 IH]; simpl; [reflexivity|].
  destruct (f a); [reflexivity | exact IH].
Qed.

(** The loop over the children of a group is the loop over the tokens of a
    statement. *)
Lemma check_token_recursively_eq (self : PostgreSQLHandler) (tok : token) :
  check_token_recursively self tok =
  if is_dangerous_dml_token tok
  then (false, msg_nested self (upper (value tok)))
  else match tok with
       | TokenList ts => _check_nested_dangerous_operations self ts
       | Token _ _ => (true, "")
       end.
Proof.
  destruct tok as [ty v|ts].
  - reflexivity.
  - unfold is_dangerous_dml_token.
    change (check_token_recursively self (TokenList ts)) with
      (if ttype_is (TokenList ts) T_Keyword_DML
          && mem (upper (value (TokenList ts))) dangerous_dml
       then (false, msg_nested self (upper (value (TokenList ts))))
       else
         (fix loop (l : list token) : bool * string :=
            match l with
            | [] => (true, "")
            | sub_token :: r =>
                let '(is_safe, error_msg) :=
                  check_token_recursively self sub_token in
                if negb is_safe then (false, error_msg) else loop r
            end) ts).
    destruct (ttype_is (TokenList ts) T_Keyword_DML
              && mem (upper (value (TokenList ts))) dangerous_dml);
      [reflexivity|].
    induction ts as [|t ts IH]; [reflexivity|].
    cbn [_check_nested_dangerous_operations].
    destruct (check_token_recursively self t) as [is_safe error_msg].
    destruct is_safe; [exact IH | reflexivity].
Qed.

Lemma preorder_group (ts : list token) :
  preorder (TokenList ts) = TokenList ts :: preorder_statement ts.
Proof.
  reflexivity.
Qed.

Lemma check_token_recursively_preorder (self : PostgreSQLHandler) :
  forall tok,
    check_token_recursively self tok =
    nested_verdict self (find is_dangerous_dml_token (preorder tok)).
Proof.
  induction tok as [ty v|ts IH] using token_ind.
  - rewrite check_token_recursively_eq. cbn [preorder find].
    destruct (is_dangerous_dml_token (Token ty v)); reflexivity.
  - rewrite check_token_recursively_eq, preorder_group. cbn [find].
    destruct (is_dangerous_dml_token (TokenList ts)); [reflexivity|].
    induction IH as [|t ts Ht _ IHts]; [reflexivity|].
    cbn [_check_nested_dangerous_operations preorder_statement flat_map].
    rewrite find_app, Ht.
    destruct (find is_dangerous_dml_token (preorder t)); [reflexivity|].
    exact IHts.
Qed.

Lemma check_nested_preorder (self : PostgreSQLHandler) (st : statement) :
  _check_nested_dangerous_operations self st =
  nested_verdict self (find is_dangerous_dml_token (preorder_statement st)).
Proof.
  induction st as [|t st IH]; [reflexivity|].
  cbn [_check_nested_dangerous_operations preorder_statement flat_map].
  rewrite find_app, check_token_recursively_preorder.
  destruct (find is_dangerous_dml_token (preorder t)); [reflexivity|].
  exact IH.
Qed.

(** *** Messages are never empty *)

Ltac nonempty :=
  unfold msg_disallowed, msg_construct, msg_union, msg_nested, msg_switch,
    msg_schema, msg_parse_failed, msg_unparsable, msg_empty_statement,
    _get_message;
  try match goal with |- context [is_chinese ?h] => destruct (is_chinese h) end;
  cbn [append]; discriminate.

Lemma msg_disallowed_nonempty self k : msg_disallowed self k <> "".
Proof. nonempty. Qed.

Lemma msg_construct_nonempty self d : msg_construct self d <> "".
Proof. nonempty. Qed.

Lemma msg_union_nonempty self : msg_union self <> "".
Proof. nonempty. Qed.

Lemma msg_nested_nonempty self k : msg_nested self k <> "".
Proof. nonempty. Qed.

Lemma msg_switch_nonempty self : msg_switch self <> "".
Proof. nonempty. Qed.

Lemma msg_schema_nonempty m : msg_schema m <> "".
Proof. nonempty. Qed.

Lemma msg_parse_failed_nonempty e : msg_parse_failed e <> "".
Proof. nonempty. Qed.

Lemma msg_unparsable_nonempty : msg_unparsable <> "".
Proof. nonempty. Qed.

Lemma msg_empty_statement_nonempty : msg_empty_statement <> "".
Proof. nonempty. Qed.

Create HintDb msgs.
#[local] Hint Resolve msg_disallowed_nonempty msg_construct_nonempty
  msg_union_nonempty msg_nested_nonempty msg_switch_nonempty
  msg_schema_nonempty msg_parse_failed_nonempty msg_unparsable_nonempty
  msg_empty_statement_nonempty : msgs.

(** *** Every check returns a well-formed decision *)

Lemma well_formed_allow : well_formed (true, "").
Proof. left; split; reflexivity. Qed.

Lemma well_formed_reject (m : string) : m <> "" -> well_formed (false, m).
Proof. intro H; right; split; [reflexivity | exact H]. Qed.

#[local] Hint Resolve well_formed_allow well_formed_reject : msgs.

Lemma well_formed_nested self st :
  well_formed (_check_nested_dangerous_operations self st).
Proof.
  rewrite check_nested_preorder.
  destruct (find is_dangerous_dml_token (preorder_statement st));
    cbn [nested_verdict]; auto with msgs.
Qed.

Lemma well_formed_select self st :
  well_formed (_check_select_safety self st).
Proof.
  unfold _check_select_safety.
  destruct (find _ dangerous_constructs) as [[c d]|]; [auto with msgs|].
  destruct (str_in "UNION" _); [auto with msgs|].
  apply well_formed_nested.
Qed.

Lemma well_formed_statement self st :
  well_formed (_check_statement_safety self st).
Proof.
  unfold _check_statement_safety.
  destruct (find _ st) as [tok|]; [|auto with msgs].
  destruct (negb _); [auto with msgs|].
  destruct (String.eqb _ _); [apply well_formed_select | auto with msgs].
Qed.

Lemma well_formed_statements self parsed :
  well_formed (check_statements self parsed).
Proof.
  induction parsed as [|st r IH]; [auto with msgs|].
  cbn [check_statements].
  pose proof (well_formed_statement self st) as W.
  destruct (_check_statement_safety self st) as [is_safe error_msg].
  destruct is_safe; [exact IH|exact W].
Qed.

Lemma well_formed_is_query_safe parse self query :
  well_formed (is_query_safe parse self query).
Proof.
  unfold is_query_safe, is_query_safe_body.
  destruct (allow_dangerous_operations self); [auto with msgs|].
  destruct (parse query) as [[|st r]|e]; auto with msgs.
  apply well_formed_statements.
Qed.

Lemma well_formed_patterns patterns query :
  well_formed (check_patterns patterns query).
Proof.
  induction patterns as [|pat r IH]; [auto with msgs|].
  cbn [check_patterns].
  destruct (find foreign_schema _); auto with msgs.
Qed.

Lemma well_formed_validate self query :
  well_formed (validate_database_context self query).
Proof.
  unfold validate_database_context.
  destruct (_ || _); [auto with msgs | apply well_formed_patterns].
Qed.

Lemma well_formed_iff (d : bool * string) :
  well_formed d -> (snd d <> "" <-> fst d = false).
Proof.
  intros [[Hf Hs]|[Hf Hs]]; rewrite Hf; split; intro H;
    try discriminate; try reflexivity; try assumption.
  elim H. exact Hs.
Qed.

(** *** Membership, the statement loop *)

Lemma mem_In (x : string) (xs : list string) : mem x xs = true <-> In x xs.
Proof.
  unfold mem. rewrite existsb_exists. split.
  - intros [y [Hin Heq]]. apply String.eqb_eq in Heq. subst y. exact Hin.
  - intro Hin. exists x. split; [exact Hin | apply String.eqb_refl].
Qed.

Lemma is_dangerous_dml_token_spec (t : token) :
  is_dangerous_dml_token t = true <->
  exists v, t = Token T_Keyword_DML v /\ In (upper v) dangerous_dml.
Proof.
  unfold is_dangerous_dml_token. rewrite andb_true_iff, mem_In. split.
  - intros [Hty Hin]. destruct t as [ty v|ts]; [|discriminate Hty].
    destruct ty; try discriminate Hty. exists v. split; [reflexivity|exact Hin].
  - intros [v [-> Hin]]. split; [reflexivity | exact Hin].
Qed.

Lemma find_first {A : Type} (f : A -> bool) (before after : list A) (x : A) :
  (forall y, In y before -> f y = false) -> f x = true ->
  find f (before ++ x :: after)%list = Some x.
Proof.
  intros Hb Hx. induction before as [|b before IH]; cbn [app find].
  - rewrite Hx. reflexivity.
  - rewrite (Hb b (or_introl eq_refl)). apply IH.
    intros y Hy. apply Hb. right. exact Hy.
Qed.

Lemma check_statements_rejects self pre st post :
  fst (_check_statement_safety self st) = false ->
  fst (check_statements self (pre ++ st :: post)%list) = false.
Proof.
  intro Hst. induction pre as [|p pre IH]; cbn [app check_statements].
  - destruct (_check_statement_safety self st) as [is_safe error_msg].
    cbn in Hst. subst is_safe. reflexivity.
  - destruct (_check_statement_safety self p) as [is_safe error_msg].
    destruct is_safe; [exact IH | reflexivity].
Qed.

Lemma check_statements_first_rejection self pre st post m :
  Forall (fun s => fst (_check_statement_safety self s) = true) pre ->
  _check_statement_safety self st = (false, m) ->
  check_statements self (pre ++ st :: post)%list = (false, m).
Proof.
  intros Hpre Hst. induction Hpre as [|p pre Hp _ IH]; cbn [app check_statements].
  - rewrite Hst. reflexivity.
  - destruct (_check_statement_safety self p) as [is_safe error_msg].
    cbn in Hp. subst is_safe. exact IH.
Qed.

Lemma is_query_safe_enforced parse self query pre st post :
  allow_dangerous_operations self = false ->
  parse query = Return (pre ++ st :: post)%list ->
  is_query_safe parse self query
  = check_statements self (pre ++ st :: post)%list.
Proof.
  intros Hmode Hparse. unfold is_query_safe, is_query_safe_body.
  rewrite Hmode, Hparse. destruct pre; reflexivity.
Qed.

Lemma check_statement_verb self st tok :
  first_token st = Some tok ->
  _check_statement_safety self st =
  if negb (mem (_extract_sql_keyword tok) safe_commands)
  then (false, msg_disallowed self (_extract_sql_keyword tok))
  else if String.eqb (_extract_sql_keyword tok) "SELECT"
  then _check_select_safety self st
  else (true, "").
Proof.
  unfold first_token, _check_statement_safety. intros ->. reflexivity.
Qed.

(** *** The matcher on the pattern of the schema guard *)

Lemma skip_over_rest k r p :
  Re.rest p = k ++ r -> Re.rest (skip_over k r p) = r.
Proof.
  revert p. induction k as [|c k IH]; intros p H; [exact H|].
  cbn [skip_over]. apply IH. reflexivity.
Qed.

Lemma skip_over_consumed k r p :
  Re.consumed (skip_over k r p) = Re.consumed p + String.length k.
Proof.
  revert p. induction k as [|c k IH]; intro p; cbn [skip_over String.length].
  - lia.
  - rewrite IH. cbn [Re.advance Re.consumed]. lia.
Qed.

Lemma skip_over_group k r p :
  Re.group1 (skip_over k r p) = Re.group1 p.
Proof.
  revert p. induction k as [|c k IH]; intro p; [reflexivity|].
  cbn [skip_over]. rewrite IH. reflexivity.
Qed.

Lemma eat_lit_skip l : forall k r p,
  ci_equal l k = true -> Re.rest p = k ++ r ->
  Re.eat_lit l p = Some (skip_over k r p).
Proof.
  induction l as [|a l IH]; intros [|c k] r p Heq Hrest;
    try discriminate Heq; [reflexivity|].
  cbn [ci_equal] in Heq. apply andb_true_iff in Heq as [Hc Hl].
  cbn [Re.eat_lit skip_over]. rewrite Hrest. cbn [append]. rewrite Hc.
  apply IH; [exact Hl | reflexivity].
Qed.

Lemma eat_lit_mismatch a l c r p :
  Re.rest p = String c r -> Re.ci_eqb a c = false ->
  Re.eat_lit (String a l) p = None.
Proof.
  intros Hrest Hc. cbn [Re.eat_lit]. rewrite Hrest, Hc. reflexivity.
Qed.

Lemma ci_eqb_other a b c :
  Re.ci_eqb a c = true -> Re.ci_eqb b a = false -> Re.ci_eqb b c = false.
Proof.
  unfold Re.ci_eqb. intros H1 H2. apply Ascii.eqb_eq in H1.
  rewrite <- H1. exact H2.
Qed.

Lemma ci_eqb_letter_is_word a c :
  is_ascii_upper a = true -> Re.ci_eqb a c = true -> is_word c = true.
Proof.
  unfold Re.ci_eqb, lower_char. intros Ha H. apply Ascii.eqb_eq in H.
  rewrite Ha in H. unfold is_word.
  destruct (is_ascii_upper c) eqn:Ec; [reflexivity|].
  subst c. cbn [orb].
  unfold is_ascii_upper, in_range in Ha.
  apply andb_true_iff in Ha as [Hlo Hhi].
  apply Nat.leb_le in Hlo, Hhi.
  unfold is_ascii_lower, in_range.
  rewrite nat_ascii_embedding by lia.
  replace (97 <=? nat_of_ascii a + 32)%nat with true
    by (symmetry; apply Nat.leb_le; lia).
  replace (nat_of_ascii a + 32 <=? 122)%nat with true
    by (symmetry; apply Nat.leb_le; lia).
  reflexivity.
Qed.

Lemma eat_plus_stop cls r p :
  match r with
  | EmptyString => True
  | String c _ => cls c = false
  end ->
  Re.eat_plus cls r p = [].
Proof.
  destruct r as [|c r]; intro H; [reflexivity|].
  cbn [Re.eat_plus]. rewrite H. reflexivity.
Qed.

Lemma eat_plus_skip cls : forall k r p,
  k <> "" -> all_chars cls k = true ->
  match r with
  | EmptyString => True
  | String c _ => cls c = false
  end ->
  exists more, Re.eat_plus cls (k ++ r) p = skip_over k r p :: more.
Proof.
  induction k as [|c k IH]; intros r p Hne Hall Hstop; [elim Hne; reflexivity|].
  cbn [all_chars] in Hall. apply andb_true_iff in Hall as [Hc Hk].
  cbn [append Re.eat_plus skip_over]. rewrite Hc.
  destruct k as [|c' k].
  - cbn [append skip_over]. rewrite (eat_plus_stop cls r _ Hstop).
    eexists. reflexivity.
  - destruct (IH r (Re.advance c (String c' k ++ r) p)) as [more Hm];
      [discriminate | exact Hk | exact Hstop |].
    rewrite Hm. eexists. reflexivity.
Qed.

Lemma substring_prefix a b :
  substring 0 (String.length a) (a ++ b) = a.
Proof.
  induction a as [|c a IH]; cbn [String.length append substring].
  - destruct b; reflexivity.
  - rewrite IH. reflexivity.
Qed.

Lemma run_keyword_alternatives k r p :
  is_keyword k = true -> Re.rest p = k ++ r ->
  exists more, Re.run keyword_alternatives p = skip_over k r p :: more.
Proof.
  unfold is_keyword. intros Hk Hrest.
  assert (Hfail : forall a l b l',
            ci_equal (String a l) k = true -> Re.ci_eqb b a = false ->
            Re.eat_lit (String b l') p = None).
  { intros a l b l' Heq Hab. destruct k as [|c k]; [discriminate Heq|].
    cbn [ci_equal] in Heq. apply andb_true_iff in Heq as [Hc _].
    apply (eat_lit_mismatch b l' c (k ++ r) p Hrest).
    exact (ci_eqb_other a b c Hc Hab). }
  unfold keyword_alternatives. cbn [Re.run].
  repeat rewrite orb_true_iff in Hk.
  destruct Hk as [[[Hk|Hk]|Hk]|Hk].
  - rewrite (eat_lit_skip _ _ _ _ Hk Hrest). eexists. reflexivity.
  - rewrite (Hfail _ _ "F"%char "ROM" Hk eq_refl).
    rewrite (eat_lit_skip _ _ _ _ Hk Hrest). eexists. reflexivity.
  - rewrite (Hfail _ _ "F"%char "ROM" Hk eq_refl).
    rewrite (Hfail _ _ "J"%char "OIN" Hk eq_refl).
    rewrite (eat_lit_skip _ _ _ _ Hk Hrest). eexists. reflexivity.
  - rewrite (Hfail _ _ "F"%char "ROM" Hk eq_refl).
    rewrite (Hfail _ _ "J"%char "OIN" Hk eq_refl).
    rewrite (Hfail _ _ "I"%char "NTO" Hk eq_refl).
    rewrite (eat_lit_skip _ _ _ _ Hk Hrest). eexists. reflexivity.
Qed.

Lemma is_keyword_starts_with_letter k :
  is_keyword k = true ->
  exists c k', k = String c k' /\ is_word c = true.
Proof.
  unfold is_keyword. repeat rewrite orb_true_iff.
  intros [[[Hk|Hk]|Hk]|Hk]; destruct k as [|c k]; try discriminate Hk;
    cbn [ci_equal] in Hk; apply andb_true_iff in Hk as [Hc _];
    exists c, k; (split; [reflexivity|]);
    (eapply ci_eqb_letter_is_word; [|exact Hc]); reflexivity.
Qed.

Lemma run_seq_head r1 r2 p q q' more more' :
  Re.run r1 p = q :: more -> Re.run r2 q = q' :: more' ->
  exists more'', Re.run (Re.Seq r1 r2) p = q' :: more''.
Proof.
  intros H1 H2. cbn [Re.run]. rewrite H1. cbn [flat_map]. rewrite H2.
  eexists. reflexivity.
Qed.

Lemma not_space_or_dot_first name :
  name <> "" -> all_chars not_space_or_dot name = true ->
  forall r, match name ++ r with
            | EmptyString => True
            | String c _ => is_space c = false
            end.
Proof.
  intros Hne Hall r. destruct name as [|c name]; [elim Hne; reflexivity|].
  cbn [all_chars] in Hall. apply andb_true_iff in Hall as [Hc _].
  cbn [append]. unfold not_space_or_dot in Hc.
  apply negb_true_iff, orb_false_iff in Hc. exact (proj1 Hc).
Qed.

(** A keyword at a word boundary, then whitespace, then a name free of
    whitespace and dots, then a dot: the pattern matches all of it and
    captures the name. *)
Lemma match_here_database_pattern before k sp name tail :
  Re.word_opt before = false ->
  is_keyword k = true ->
  sp <> "" -> all_chars is_space sp = true ->
  name <> "" -> all_chars not_space_or_dot name = true ->
  Re.match_here database_pattern before (k ++ sp ++ name ++ "." ++ tail)
  = Some (String.length k + String.length sp + String.length name + 1, name).
Proof.
  intros Hb Hk Hsp1 Hsp2 Hn1 Hn2.
  set (s := k ++ sp ++ name ++ "." ++ tail).
  set (p0 := Re.start before s).
  (* the keyword *)
  destruct (run_keyword_alternatives k (sp ++ name ++ "." ++ tail) p0 Hk
              eq_refl) as [m1 H1].
  set (p1 := skip_over k (sp ++ name ++ "." ++ tail) p0) in *.
  assert (R1 : Re.rest p1 = sp ++ name ++ "." ++ tail)
    by (apply skip_over_rest; reflexivity).
  (* the whitespace *)
  destruct (eat_plus_skip is_space sp (name ++ "." ++ tail) p1 Hsp1 Hsp2
              (not_space_or_dot_first name Hn1 Hn2 _)) as [m2 H2].
  set (p2 := skip_over sp (name ++ "." ++ tail) p1) in *.
  assert (R2 : Re.rest p2 = name ++ "." ++ tail)
    by (apply skip_over_rest; exact R1).
  (* the name *)
  destruct (eat_plus_skip not_space_or_dot name ("." ++ tail) p2 Hn1 Hn2
              eq_refl) as [m3 H3].
  set (p3 := skip_over name ("." ++ tail) p2) in *.
  assert (R3 : Re.rest p3 = "." ++ tail)
    by (apply skip_over_rest; exact R2).
  (* assembling the sequence, from the right *)
  assert (Hgroup : Re.run (Re.Group (Re.Plus not_space_or_dot)) p2
                   = Re.close_group p2 p3 :: map (Re.close_group p2) m3).
  { cbn [Re.run]. rewrite R2, H3. reflexivity. }
  assert (Hdot : Re.run (Re.Lit ".") (Re.close_group p2 p3)
                 = [Re.advance "." tail (Re.close_group p2 p3)]).
  { cbn [Re.run Re.eat_lit Re.close_group Re.rest]. rewrite R3.
    reflexivity. }
  destruct (run_seq_head _ _ _ _ _ _ _ Hgroup Hdot) as [m4 H4].
  assert (Hspace : Re.run (Re.Plus is_space) p1 = p2 :: m2).
  { cbn [Re.run]. rewrite R1. exact H2. }
  destruct (run_seq_head _ _ _ _ _ _ _ Hspace H4) as [m5 H5].
  destruct (run_seq_head _ _ _ _ _ _ _ H1 H5) as [m6 H6].
  assert (Hwb : Re.run Re.WordBoundary p0 = [p0]).
  { destruct (is_keyword_starts_with_letter k Hk) as [c [k' [Ek Hc]]].
    cbn [Re.run]. unfold Re.next_char, p0, s. rewrite Ek.
    cbn [Re.start Re.prev Re.rest append Re.word_opt]. rewrite Hc.
    rewrite Hb. reflexivity. }
  destruct (run_seq_head _ _ _ _ _ _ _ Hwb H6) as [m7 H7].
  unfold Re.match_here. fold s. fold p0.
  change database_pattern with
    (Re.Seq Re.WordBoundary
       (Re.Seq keyword_alternatives
          (Re.Seq (Re.Plus is_space)
             (Re.Seq (Re.Group (Re.Plus not_space_or_dot)) (Re.Lit "."))))).
  rewrite H7.
  cbn [Re.advance Re.close_group Re.consumed Re.group1 Re.rest].
  rewrite R2. unfold p3, p2, p1. repeat rewrite skip_over_consumed.
  replace (Re.consumed p0 + String.length k + String.length sp
           + String.length name
           - (Re.consumed p0 + String.length k + String.length sp))
    with (String.length name) by lia.
  rewrite substring_prefix. cbn [p0 Re.start Re.consumed].
  f_equal. f_equal. lia.
Qed.

Lemma findall_from_miss r before c s :
  Re.match_here r before (String c s) = None ->
  Re.findall_from r before 0 (String c s) = Re.findall_from r (Some c) 0 s.
Proof.
  intro H. cbn [Re.findall_from]. rewrite H. reflexivity.
Qed.

Lemma findall_from_hit r before s n g :
  Re.match_here r before s = Some (n, g) ->
  exists more, Re.findall_from r before 0 s = g :: more.
Proof.
  intro H. destruct s as [|c s]; cbn [Re.findall_from]; rewrite H;
    eexists; reflexivity.
Qed.

(** In a text that begins with [SELECT * ] and goes on with a keyword,
    whitespace and a dotted name, that name is the first capture. *)
Lemma findall_select_star k sp name tail :
  is_keyword k = true ->
  sp <> "" -> all_chars is_space sp = true ->
  name <> "" -> all_chars not_space_or_dot name = true ->
  exists more,
    Re.findall database_pattern
      ("SELECT * " ++ k ++ sp ++ name ++ "." ++ tail) = name :: more.
Proof.
  intros Hk Hsp1 Hsp2 Hn1 Hn2. unfold Re.findall. cbn [append].
  do 9 (rewrite findall_from_miss by (vm_compute; reflexivity)).
  apply (findall_from_hit _ _ _
           (String.length k + String.length sp + String.length name + 1)).
  apply match_here_database_pattern; try assumption. reflexivity.
Qed.

(** ** The claims *)

(** C1. In permissive mode ([allow_dangerous_operations] set)
    [is_query_safe] allows every query with an empty message, whatever the
    parser would do with it -- return statements, return none, or raise:
    the parser and the verb, pattern and nested checks are not consulted. *)
Theorem is_query_safe_permissive
  (parse : string -> result (list statement))
  (self : PostgreSQLHandler) (query : string) :
  allow_dangerous_operations self = true ->
  is_query_safe parse self query = (true, "").
Proof.
  intro H. unfold is_query_safe. rewrite H. reflexivity.
Qed.

Lemma is_query_safe_permissive_witness :
  is_query_safe failing_parse permissive "DROP TABLE users" = (true, "")
  /\ is_query_safe sample_parse permissive q_batch = (true, "").
Proof.
  split.
  - apply (is_query_safe_permissive failing_parse permissive). reflexivity.
  - apply (is_query_safe_permissive sample_parse permissive). reflexivity.
Defined.

(** C8. In enforced mode [is_query_safe] fails closed: when the parser
    raises, or returns no statement, the decision is a rejection; a query
    is allowed only if the parser returned at least one statement.  The
    outcome is a decision value in every case: an exception raised inside
    the [try] block is turned into a rejection, and
    [validate_database_context] is a total function of the query text. *)
Theorem is_query_safe_fails_closed
  (parse : string -> result (list statement))
  (self : PostgreSQLHandler) (query : string) :
  allow_dangerous_operations self = false ->
  (forall e, parse query = Raise e ->
     is_query_safe_body parse self query = Raise e /\
     is_query_safe parse self query = (false, msg_parse_failed e)) /\
  (parse query = Return [] ->
     is_query_safe parse self query = (false, msg_unparsable)) /\
  (fst (is_query_safe parse self query) = true ->
     exists st r, parse query = Return (st :: r)) /\
  (exists allowed reason,
     is_query_safe parse self query = (allowed, reason)) /\
  (exists allowed reason,
     validate_database_context self query = (allowed, reason)).
Proof.
  intro Hmode. unfold is_query_safe, is_query_safe_body. rewrite Hmode.
  repeat split.
  - rewrite H. reflexivity.
  - rewrite H. reflexivity.
  - intro H. rewrite H. reflexivity.
  - destruct (parse query) as [[|st r]|e]; cbn; intro H;
      try discriminate. exists st, r. reflexivity.
  - destruct (parse query) as [[|st r]|e]; eauto.
    destruct (check_statements self (st :: r)); eauto.
  - destruct (validate_database_context self query); eauto.
Qed.

Lemma is_query_safe_fails_closed_witness :
  is_query_safe failing_parse enforced "SELECT 1"
    = (false, msg_parse_failed "parser failure")
  /\ is_query_safe sample_parse enforced "" = (false, msg_unparsable).
Proof.
  split.
  - apply (is_query_safe_fails_closed failing_parse enforced "SELECT 1");
      reflexivity.
  - apply (is_query_safe_fails_closed sample_parse enforced ""); reflexivity.
Defined.

(** C9. For every query, handler and parser, the message returned by
    [is_query_safe] and the one returned by [validate_database_context]
    are non-empty exactly when the decision is a rejection. *)
Theorem reason_nonempty_iff_rejected
  (parse : string -> result (list statement))
  (self : PostgreSQLHandler) (query : string) :
  (snd (is_query_safe parse self query) <> ""
     <-> fst (is_query_safe parse self query) = false) /\
  (snd (validate_database_context self query) <> ""
     <-> fst (validate_database_context self query) = false).
Proof.
  split; apply well_formed_iff.
  - apply well_formed_is_query_safe.
  - apply well_formed_validate.
Qed.

(** C3, as the specification states it, fails: the nested scan is not
    reached by every statement of the SELECT class that holds a mutating
    keyword.  A WITH statement is accepted without any scan, although a
    DELETE sits in its token tree; and a SELECT statement whose text holds
    UNION is rejected for the UNION before the scan is run, so that the
    DELETE nested in it is not what the rejection names. *)
Lemma nested_scan_is_bypassed :
  (statement_str st_with = q_with /\
   first_token st_with = Some (Token T_Keyword_CTE "WITH") /\
   find is_dangerous_dml_token (preorder_statement st_with)
     = Some (dml "DELETE") /\
   is_query_safe (parse_as st_with) enforced q_with = (true, "")) /\
  (statement_str st_nested_union = q_nested_union /\
   first_token st_nested_union = Some (dml "SELECT") /\
   find is_dangerous_dml_token (preorder_statement st_nested_union)
     = Some (dml "DELETE") /\
   is_query_safe (parse_as st_nested_union) enforced q_nested_union
     = (false, msg_union enforced) /\
   is_query_safe (parse_as st_nested_union) enforced q_nested_union
     <> (false, msg_nested enforced "DELETE")).
Proof.
  split; repeat split; try (vm_compute; reflexivity).
  vm_compute. discriminate.
Qed.

(** C3, amended.  On a statement of ASCII text the nested scan visits the
    token tree in pre-order and rejects at the first node that is a DML
    keyword whose upper-cased value is INSERT, UPDATE, DELETE, DROP,
    ALTER, CREATE, TRUNCATE or COPY, naming that keyword; what follows the
    node in pre-order has no influence, and with no such node the scan
    allows.  In enforced mode the scan is run on the statements whose verb
    is SELECT and whose upper-cased text holds none of the dangerous
    substrings and no UNION: such a statement holding a mutating DML
    keyword at any depth is rejected by [is_query_safe] with the message
    for the first such keyword. *)
Theorem nested_scan_rejects_first_mutation
  (parse : string -> result (list statement))
  (self : PostgreSQLHandler) (query : string) (st : statement) :
  ascii_statement st = true ->
  (forall t, In t (preorder_statement st) ->
     (is_dangerous_dml_token t = true <->
      exists v, t = Token T_Keyword_DML v /\
        In (upper v)
           ["INSERT"; "UPDATE"; "DELETE"; "DROP"; "ALTER"; "CREATE";
            "TRUNCATE"; "COPY"])) /\
  _check_nested_dangerous_operations self st
    = match find is_dangerous_dml_token (preorder_statement st) with
      | Some t => (false, msg_nested self (upper (value t)))
      | None => (true, "")
      end /\
  (forall before t after,
     preorder_statement st = (before ++ t :: after)%list ->
     (forall x, In x before -> is_dangerous_dml_token x = false) ->
     is_dangerous_dml_token t = true ->
     _check_nested_dangerous_operations self st
       = (false, msg_nested self (upper (value t)))) /\
  (forall tok t,
     allow_dangerous_operations self = false ->
     parse query = Return [st] ->
     first_token st = Some tok ->
     _extract_sql_keyword tok = "SELECT" ->
     find (fun cd => str_in (fst cd) (upper (statement_str st)))
       dangerous_constructs = None ->
     str_in "UNION" (upper (statement_str st)) = false ->
     find is_dangerous_dml_token (preorder_statement st) = Some t ->
     is_query_safe parse self query
       = (false, msg_nested self (upper (value t)))).
Proof.
  intros _.
  assert (Hfirst : forall before t after,
     preorder_statement st = (before ++ t :: after)%list ->
     (forall x, In x before -> is_dangerous_dml_token x = false) ->
     is_dangerous_dml_token t = true ->
     _check_nested_dangerous_operations self st
       = (false, msg_nested self (upper (value t)))).
  { intros before t after Hpre Hb Ht.
    rewrite check_nested_preorder, Hpre, (find_first _ _ _ _ Hb Ht).
    reflexivity. }
  split; [intros t _; exact (is_dangerous_dml_token_spec t)|].
  split; [apply check_nested_preorder|].
  split; [exact Hfirst|].
  intros tok t Hmode Hparse Htok Hverb Hcons Hunion Hfind.
  rewrite (is_query_safe_enforced parse self query [] st [] Hmode Hparse).
  cbn [app check_statements].
  rewrite (check_statement_verb self st tok Htok), Hverb.
  change (mem "SELECT" safe_commands) with true.
  change (String.eqb "SELECT" "SELECT") with true. cbn [negb].
  unfold _check_select_safety. rewrite Hcons, Hunion.
  rewrite check_nested_preorder, Hfind. reflexivity.
Qed.

Lemma nested_scan_rejects_first_mutation_witness :
  statement_str st_nested = q_nested /\
  ascii_statement st_nested = true /\
  is_query_safe sample_parse enforced q_nested
    = (false, msg_nested enforced "DELETE").
Proof.
  split; [reflexivity|]. split; [reflexivity|].
  apply (proj2 (proj2 (proj2
           (nested_scan_rejects_first_mutation
              sample_parse enforced q_nested st_nested eq_refl)))
           (dml "SELECT") (dml "DELETE"));
    vm_compute; reflexivity.
Defined.

(** C4. In enforced mode a statement whose leading verb is outside
    SELECT, SHOW, DESCRIBE, DESC, EXPLAIN, WITH -- as are INSERT, UPDATE,
    DELETE, DROP, ALTER, CREATE, TRUNCATE, REPLACE, GRANT and REVOKE -- is
    rejected with the disallowed-command message for that verb; wherever
    such a statement stands in a batch the whole batch is rejected, and
    when the statements before it pass, the batch is rejected with that
    very message. *)
Theorem disallowed_verb_rejects_batch
  (parse : string -> result (list statement))
  (self : PostgreSQLHandler) (query : string)
  (pre : list statement) (st : statement) (post : list statement)
  (tok : token) :
  allow_dangerous_operations self = false ->
  parse query = Return (pre ++ st :: post)%list ->
  first_token st = Some tok ->
  ~ In (_extract_sql_keyword tok)
      ["SELECT"; "SHOW"; "DESCRIBE"; "DESC"; "EXPLAIN"; "WITH"] ->
  _check_statement_safety self st
    = (false, msg_disallowed self (_extract_sql_keyword tok)) /\
  fst (is_query_safe parse self query) = false /\
  (Forall (fun s => fst (_check_statement_safety self s) = true) pre ->
   is_query_safe parse self query
     = (false, msg_disallowed self (_extract_sql_keyword tok))) /\
  (forall verb,
     In verb ["INSERT"; "UPDATE"; "DELETE"; "DROP"; "ALTER"; "CREATE";
              "TRUNCATE"; "REPLACE"; "GRANT"; "REVOKE"] ->
     ~ In verb ["SELECT"; "SHOW"; "DESCRIBE"; "DESC"; "EXPLAIN"; "WITH"]).
Proof.
  intros Hmode Hparse Htok Hverb.
  assert (Hst : _check_statement_safety self st
                = (false, msg_disallowed self (_extract_sql_keyword tok))).
  { rewrite (check_statement_verb self st tok Htok).
    destruct (mem (_extract_sql_keyword tok) safe_commands) eqn:E;
      [|reflexivity].
    apply mem_In in E. elim Hverb. exact E. }
  rewrite (is_query_safe_enforced parse self query pre st post Hmode Hparse).
  split; [exact Hst|].
  split; [apply check_statements_rejects; rewrite Hst; reflexivity|].
  split.
  - intro Hpre. apply check_statements_first_rejection; assumption.
  - intros verb Hin Hsafe. cbn [In] in Hin, Hsafe.
    repeat (destruct Hin as [<-|Hin];
            [repeat (destruct Hsafe as [Hsafe|Hsafe];
                     [discriminate Hsafe|]); exact Hsafe|]).
    exact Hin.
Qed.

Lemma disallowed_verb_rejects_batch_witness :
  (statement_str st_batch_1 ++ statement_str st_batch_2 = q_batch) /\
  fst (_check_statement_safety enforced st_batch_1) = true /\
  is_query_safe sample_parse enforced q_batch
    = (false, msg_disallowed enforced "DELETE").
Proof.
  split; [reflexivity|]. split; [reflexivity|].
  apply (disallowed_verb_rejects_batch sample_parse enforced q_batch
           [st_batch_1] st_batch_2 [] (dml "DELETE")).
  - reflexivity.
  - reflexivity.
  - reflexivity.
  - vm_compute. intros H.
    repeat (destruct H as [H|H]; [discriminate H|]). exact H.
  - constructor; [reflexivity | constructor].
Defined.

(** C2, as the specification states it, fails: a WITH statement is not
    deep scanned.  The statement below has the verb WITH and wraps a
    DELETE; the handler accepts it, whereas the statement check written
    after the specification, which scans WITH like SELECT, rejects it. *)
Lemma with_statement_is_not_deep_scanned :
  statement_str st_with = q_with /\
  first_token st_with = Some (Token T_Keyword_CTE "WITH") /\
  _extract_sql_keyword (Token T_Keyword_CTE "WITH") = "WITH" /\
  _check_select_safety enforced st_with
    = (false, msg_nested enforced "DELETE") /\
  spec_check_statement_safety enforced st_with
    = (false, msg_nested enforced "DELETE") /\
  _check_statement_safety enforced st_with = (true, "") /\
  is_query_safe sample_parse enforced q_with = (true, "").
Proof.
  repeat split; vm_compute; reflexivity.
Qed.

(** C2, amended.  Among the statements that pass the verb gate, a
    statement goes through the deep scan ([_check_select_safety]: the text
    patterns, then the nested scan) if and only if its verb is SELECT: with
    the verb SELECT the decision is the deep scan's, and with any other
    permitted verb -- SHOW, DESCRIBE, DESC, EXPLAIN or WITH -- the statement
    is accepted whatever its tokens hold, nested mutating keywords
    included. *)
Theorem deep_scan_iff_select
  (self : PostgreSQLHandler) (st : statement) (tok : token) :
  first_token st = Some tok ->
  In (_extract_sql_keyword tok)
     ["SELECT"; "SHOW"; "DESCRIBE"; "DESC"; "EXPLAIN"; "WITH"] ->
  (_extract_sql_keyword tok = "SELECT" ->
     _check_statement_safety self st = _check_select_safety self st) /\
  (_extract_sql_keyword tok <> "SELECT" ->
     _check_statement_safety self st = (true, "")) /\
  (In (_extract_sql_keyword tok)
      ["SHOW"; "DESCRIBE"; "DESC"; "EXPLAIN"; "WITH"] ->
     _check_statement_safety self st = (true, "")).
Proof.
  intros Htok Hsafe.
  rewrite (check_statement_verb self st tok Htok).
  assert (E : mem (_extract_sql_keyword tok) safe_commands = true)
    by (apply mem_In; exact Hsafe).
  rewrite E. cbn [negb].
  assert (Hne : _extract_sql_keyword tok <> "SELECT" ->
                (if String.eqb (_extract_sql_keyword tok) "SELECT"
                 then _check_select_safety self st else (true, ""))
                = (true, "")).
  { intro Hn. apply String.eqb_neq in Hn. rewrite Hn. reflexivity. }
  split; [|split].
  - intros ->. reflexivity.
  - exact Hne.
  - intro Hin. apply Hne. intro Heq. rewrite Heq in Hin. cbn [In] in Hin.
    repeat (destruct Hin as [Hin|Hin]; [discriminate Hin|]). exact Hin.
Qed.

Lemma deep_scan_iff_select_witness :
  _check_statement_safety enforced st_with = (true, "") /\
  _check_statement_safety enforced st_explain = (true, "") /\
  _check_statement_safety enforced st_nested
    = _check_select_safety enforced st_nested.
Proof.
  split; [|split].
  - apply (deep_scan_iff_select enforced st_with (Token T_Keyword_CTE "WITH"));
      [reflexivity | vm_compute; tauto | vm_compute; tauto].
  - apply (deep_scan_iff_select enforced st_explain (kw "EXPLAIN"));
      [reflexivity | vm_compute; tauto | vm_compute; tauto].
  - apply (deep_scan_iff_select enforced st_nested (dml "SELECT"));
      [reflexivity | vm_compute; tauto | reflexivity].
Defined.

(** C5, as the specification states it, fails, in two ways.  A SELECT
    statement whose text holds UNION is not always rejected as a UNION:
    the five dangerous substrings are tested first, so the first statement
    below, which holds both [@@] and UNION, is rejected for the system
    variable.  And a statement of the SELECT class is not always checked
    for UNION: the second statement has the verb WITH, holds UNION, and is
    accepted. *)
Lemma union_shadowed_by_dangerous_construct :
  (statement_str st_union_sysvar = q_union_sysvar /\
   first_token st_union_sysvar = Some (dml "SELECT") /\
   str_in "UNION" (upper (statement_str st_union_sysvar)) = true /\
   _check_statement_safety enforced st_union_sysvar
     = (false, msg_construct enforced "系统变量访问") /\
   _check_statement_safety enforced st_union_sysvar
     <> (false, msg_union enforced)) /\
  (statement_str st_with_union = q_with_union /\
   first_token st_with_union = Some (Token T_Keyword_CTE "WITH") /\
   str_in "UNION" (upper (statement_str st_with_union)) = true /\
   _check_statement_safety enforced st_with_union = (true, "") /\
   is_query_safe (parse_as st_with_union) enforced q_with_union
     = (true, "")).
Proof.
  split; repeat split; try (vm_compute; reflexivity).
  vm_compute. discriminate.
Qed.

(** C5, amended.  In enforced mode every statement of ASCII text with the
    verb SELECT whose upper-cased text holds UNION is rejected, and with
    it the batch it stands in.  The five dangerous substrings INTO OUTFILE,
    COPY followed by a space, PG_READ_FILE(, PG_LS_DIR( and [@@] are
    tested before UNION: when the text holds one of them the rejection is
    the dangerous-construct one for the first of them in that order, and
    when it holds none the rejection is the UNION one.  A union of a table
    with itself is rejected like any other. *)
Theorem union_rejected
  (parse : string -> result (list statement))
  (self : PostgreSQLHandler) (query : string)
  (pre : list statement) (st : statement) (post : list statement)
  (tok : token) :
  ascii_statement st = true ->
  allow_dangerous_operations self = false ->
  parse query = Return (pre ++ st :: post)%list ->
  first_token st = Some tok ->
  _extract_sql_keyword tok = "SELECT" ->
  str_in "UNION" (upper (statement_str st)) = true ->
  fst (_check_statement_safety self st) = false /\
  fst (is_query_safe parse self query) = false /\
  (forallb (fun construct => negb (str_in construct (upper (statement_str st))))
     ["INTO OUTFILE"; "COPY "; "PG_READ_FILE("; "PG_LS_DIR("; "@@"] = true ->
   _check_statement_safety self st = (false, msg_union self) /\
   (Forall (fun s => fst (_check_statement_safety self s) = true) pre ->
    is_query_safe parse self query = (false, msg_union self))) /\
  (forall construct description,
     find (fun cd => str_in (fst cd) (upper (statement_str st)))
       [ ("INTO OUTFILE", "SELECT INTO OUTFILE");
         ("COPY ", "COPY命令");
         ("PG_READ_FILE(", "文件读取函数pg_read_file");
         ("PG_LS_DIR(", "目录列表函数pg_ls_dir");
         ("@@", "系统变量访问") ]
     = Some (construct, description) ->
     _check_statement_safety self st
       = (false, msg_construct self description) /\
     (Forall (fun s => fst (_check_statement_safety self s) = true) pre ->
      is_query_safe parse self query
        = (false, msg_construct self description))).
Proof.
  intros _ Hmode Hparse Htok Hverb Hunion.
  rewrite (is_query_safe_enforced parse self query pre st post Hmode Hparse).
  assert (Hsel : _check_statement_safety self st
                 = _check_select_safety self st).
  { rewrite (check_statement_verb self st tok Htok), Hverb. reflexivity. }
  assert (Hst : fst (_check_statement_safety self st) = false /\
    (forallb (fun construct =>
                negb (str_in construct (upper (statement_str st))))
       ["INTO OUTFILE"; "COPY "; "PG_READ_FILE("; "PG_LS_DIR("; "@@"] = true ->
     _check_statement_safety self st = (false, msg_union self))).
  { rewrite Hsel.
    unfold _check_select_safety. cbn [dangerous_constructs find fst forallb].
    rewrite Hunion.
    destruct (str_in "INTO OUTFILE" _); [split; [reflexivity|discriminate]|].
    destruct (str_in "COPY " _); [split; [reflexivity|discriminate]|].
    destruct (str_in "PG_READ_FILE(" _); [split; [reflexivity|discriminate]|].
    destruct (str_in "PG_LS_DIR(" _); [split; [reflexivity|discriminate]|].
    destruct (str_in "@@" _); [split; [reflexivity|discriminate]|].
    split; reflexivity. }
  destruct Hst as [Hrej Hunion_msg].
  split; [exact Hrej|].
  split; [apply check_statements_rejects; exact Hrej|].
  split.
  - intro Hclean. split; [exact (Hunion_msg Hclean)|].
    intro Hpre. apply check_statements_first_rejection;
      [exact Hpre | exact (Hunion_msg Hclean)].
  - intros construct description Hfind.
    assert (Hc : _check_statement_safety self st
                 = (false, msg_construct self description)).
    { rewrite Hsel. unfold _check_select_safety.
      change dangerous_constructs with
        [ ("INTO OUTFILE", "SELECT INTO OUTFILE");
          ("COPY ", "COPY命令");
          ("PG_READ_FILE(", "文件读取函数pg_read_file");
          ("PG_LS_DIR(", "目录列表函数pg_ls_dir");
          ("@@", "系统变量访问") ].
      rewrite Hfind. reflexivity. }
    split; [exact Hc|].
    intro Hpre. apply check_statements_first_rejection; assumption.
Qed.

Lemma union_rejected_witness :
  statement_str st_union = q_union /\
  _check_statement_safety enforced st_union = (false, msg_union enforced) /\
  is_query_safe sample_parse enforced q_union = (false, msg_union enforced) /\
  is_query_safe sample_parse enforced q_union_sysvar
    = (false, msg_construct enforced "系统变量访问").
Proof.
  split; [reflexivity|].
  destruct (union_rejected sample_parse enforced q_union [] st_union []
              (dml "SELECT") eq_refl eq_refl eq_refl eq_refl eq_refl eq_refl)
    as [_ [_ [H _]]].
  destruct (H eq_refl) as [Hst Hq].
  split; [exact Hst|]. split; [apply Hq; constructor|].
  destruct (union_rejected sample_parse enforced q_union_sysvar []
              st_union_sysvar [] (dml "SELECT")
              eq_refl eq_refl eq_refl eq_refl eq_refl eq_refl)
    as [_ [_ [_ H']]].
  apply (H' "@@" "系统变量访问" eq_refl). constructor.
Defined.

(** C10. [validate_database_context] rejects, as an attempt to switch
    database, every query of ASCII text whose stripped and upper-cased
    text holds the substring USE followed by a space, or backslash C
    followed by a space.  The test is on substrings, not on keywords: the
    query below has no word USE -- the letters end the identifier [house]
    -- and is rejected all the same. *)
Theorem database_switch_by_substring (self : PostgreSQLHandler) :
  (forall query,
     is_ascii query = true ->
     str_in "USE " (upper (strip query)) = true \/
     str_in "\C " (upper (strip query)) = true ->
     validate_database_context self query = (false, msg_switch self)) /\
  (exists query,
     is_ascii query = true /\
     str_in "house " query = true /\
     ~ In "USE" (split_words (upper query)) /\
     validate_database_context self query = (false, msg_switch self)).
Proof.
  assert (H : forall query,
     is_ascii query = true ->
     str_in "USE " (upper (strip query)) = true \/
     str_in "\C " (upper (strip query)) = true ->
     validate_database_context self query = (false, msg_switch self)).
  { intros query _ Hsub. unfold validate_database_context.
    destruct Hsub as [Hsub|Hsub]; rewrite Hsub;
      [rewrite orb_true_r | rewrite orb_true_l]; reflexivity. }
  split; [exact H|].
  exists "SELECT * FROM house WHERE id = 1".
  split; [reflexivity|].
  split; [vm_compute; reflexivity|].
  split.
  - vm_compute. intro Hin.
    repeat (destruct Hin as [Hin|Hin]; [discriminate Hin|]). exact Hin.
  - apply H; [reflexivity|]. left. vm_compute. reflexivity.
Qed.

Lemma database_switch_by_substring_witness :
  validate_database_context enforced "SELECT * FROM house WHERE id = 1"
    = (false, msg_switch enforced) /\
  validate_database_context enforced "\c otherdb"
    = (false, msg_switch enforced) /\
  validate_database_context enforced "SELECT * FROM home WHERE id = 1"
    = (true, "").
Proof.
  split; [|split].
  - apply (proj1 (database_switch_by_substring enforced)); [reflexivity|].
    left. vm_compute. reflexivity.
  - apply (proj1 (database_switch_by_substring enforced)); [reflexivity|].
    right. vm_compute. reflexivity.
  - vm_compute. reflexivity.
Defined.

(** C7. The decision of [validate_database_context] does not depend on
    the mode: two handlers configured for the same database give the same
    decision on every query, whatever their flags.  [execute_query] sends
    no query to the database that the guard rejects, in either mode; in
    permissive mode, where [is_query_safe] lets everything through, its
    outcome is the guard's decision on every query. *)
Theorem schema_guard_ignores_mode
  (parse : string -> result (list statement))
  (self other : PostgreSQLHandler) (query : string) :
  database self = database other ->
  validate_database_context self query
    = validate_database_context other query /\
  (fst (validate_database_context self query) = false ->
     exists message, execute_query parse self query = Rejected message) /\
  (allow_dangerous_operations self = true ->
     execute_query parse self query
     = if fst (validate_database_context self query)
       then SentToDatabase query
       else Rejected (msg_rejected self ++ ": "
                      ++ snd (validate_database_context self query))) /\
  (forall sent, execute_query parse self query = SentToDatabase sent ->
     sent = query /\
     fst (is_query_safe parse self query) = true /\
     fst (validate_database_context self query) = true).
Proof.
  intro Hdb. split; [|split; [|split]].
  - unfold validate_database_context, msg_switch. rewrite Hdb. reflexivity.
  - intro Hrej. unfold execute_query.
    destruct (is_query_safe parse self query) as [is_safe safety_msg].
    destruct is_safe; cbn [negb]; [|eauto].
    destruct (validate_database_context self query) as [ok context_msg].
    cbn in Hrej. subst ok. cbn [negb]. eauto.
  - intro Hmode. unfold execute_query.
    unfold is_query_safe. rewrite Hmode. cbn [negb].
    destruct (validate_database_context self query) as [ok context_msg].
    destruct ok; reflexivity.
  - intros sent. unfold execute_query.
    destruct (is_query_safe parse self query) as [is_safe safety_msg].
    destruct is_safe; cbn [negb]; [|discriminate].
    destruct (validate_database_context self query) as [ok context_msg].
    destruct ok; cbn [negb]; [|discriminate].
    intro H. injection H as <-. repeat split; reflexivity.
Qed.

Lemma schema_guard_ignores_mode_witness :
  validate_database_context permissive "DELETE FROM secret.users"
    = validate_database_context enforced "DELETE FROM secret.users" /\
  is_query_safe failing_parse permissive "DELETE FROM secret.users"
    = (true, "") /\
  execute_query failing_parse permissive "DELETE FROM secret.users"
    = Rejected ("Query rejected: " ++ msg_schema "secret") /\
  execute_query failing_parse permissive "DELETE FROM public.users"
    = SentToDatabase "DELETE FROM public.users".
Proof.
  pose proof (schema_guard_ignores_mode failing_parse permissive enforced
                "DELETE FROM secret.users" eq_refl) as [H1 [_ [H3 _]]].
  pose proof (schema_guard_ignores_mode failing_parse permissive enforced
                "DELETE FROM public.users" eq_refl) as [_ [_ [H3' _]]].
  split; [exact H1|]. split; [reflexivity|].
  split; [rewrite (H3 eq_refl) | rewrite (H3' eq_refl)];
    vm_compute; reflexivity.
Defined.

(** C6, as the specification states it, fails, in two ways.  The
    pattern of the handler begins with a word boundary, which the stated
    pattern lacks: on the first query below the stated pattern matches
    inside the column name [valid_from] and captures [<t], which is none
    of the permitted schemas, so the claim has the query rejected; the
    handler's pattern finds nothing and the query is accepted.  And the
    database-switch test comes first: the second query qualifies a table
    with [secret], yet the rejection it gets is the database-switch one,
    for the letters that end [house]. *)
Lemma schema_pattern_needs_word_boundary :
  (Re.findall spec_database_pattern
     "SELECT * FROM t WHERE valid_from <t.valid_to" = ["<t"] /\
   foreign_schema "<t" = true /\
   Re.findall database_pattern
     "SELECT * FROM t WHERE valid_from <t.valid_to" = [] /\
   validate_database_context enforced
     "SELECT * FROM t WHERE valid_from <t.valid_to" = (true, "")) /\
  (Re.findall database_pattern "SELECT * FROM secret.house h WHERE h.id = 1"
   = ["secret"] /\
   foreign_schema "secret" = true /\
   validate_database_context enforced
     "SELECT * FROM secret.house h WHERE h.id = 1"
   = (false, msg_switch enforced) /\
   validate_database_context enforced
     "SELECT * FROM secret.house h WHERE h.id = 1"
   <> (false, msg_schema "secret")).
Proof.
  split; repeat split; try (vm_compute; reflexivity).
  vm_compute. discriminate.
Qed.

(** C6, amended.  [validate_database_context] scans the original query
    text with the pattern [\b(?:FROM|JOIN|INTO|UPDATE)\s+([^\s\.]+)\.] --
    the stated pattern behind a word boundary -- case-insensitively and
    over the whole text.  On a query of ASCII text: a query with a
    captured identifier whose lower case is not public, pg_catalog or
    information_schema is rejected; when the database-switch test has not
    already rejected the query, the decision is the rejection naming the
    first such identifier, and acceptance when there is none.  So a query
    [SELECT * FROM s.t...] (or with JOIN, INTO, UPDATE in any case, and
    any whitespace) is rejected for the schema [s] unless [s] is one of
    the three. *)
Theorem schema_scan_rejects_foreign_schema
  (self : PostgreSQLHandler) (query : string) :
  is_ascii query = true ->
  database_pattern = Re.Seq Re.WordBoundary spec_database_pattern /\
  (forall m, In m (Re.findall database_pattern query) ->
     (foreign_schema m = true <->
      ~ In (lower m) ["public"; "pg_catalog"; "information_schema"])) /\
  (forall m, In m (Re.findall database_pattern query) ->
     foreign_schema m = true ->
     fst (validate_database_context self query) = false) /\
  (str_in "\C " (upper (strip query)) = false ->
   str_in "USE " (upper (strip query)) = false ->
   validate_database_context self query
   = match find foreign_schema (Re.findall database_pattern query) with
     | Some m => (false, msg_schema m)
     | None => (true, "")
     end) /\
  (forall k sp name tail,
     query = "SELECT * " ++ k ++ sp ++ name ++ "." ++ tail ->
     is_keyword k = true ->
     sp <> "" -> all_chars is_space sp = true ->
     name <> "" -> all_chars not_space_or_dot name = true ->
     foreign_schema name = true ->
     fst (validate_database_context self query) = false /\
     (str_in "\C " (upper (strip query)) = false ->
      str_in "USE " (upper (strip query)) = false ->
      validate_database_context self query = (false, msg_schema name))).
Proof.
  intros _.
  assert (Hany : forall m, In m (Re.findall database_pattern query) ->
     foreign_schema m = true ->
     fst (validate_database_context self query) = false).
  { intros m Hin Hforeign. unfold validate_database_context.
    destruct (_ || _); [reflexivity|]. cbn [database_patterns check_patterns].
    destruct (find foreign_schema _) as [m'|] eqn:E; [reflexivity|].
    rewrite (find_none _ _ E m Hin) in Hforeign. discriminate Hforeign. }
  assert (Hfirst : str_in "\C " (upper (strip query)) = false ->
   str_in "USE " (upper (strip query)) = false ->
   validate_database_context self query
   = match find foreign_schema (Re.findall database_pattern query) with
     | Some m => (false, msg_schema m)
     | None => (true, "")
     end).
  { intros Hc Huse. unfold validate_database_context.
    rewrite Hc, Huse. cbn [orb database_patterns check_patterns].
    destruct (find foreign_schema _); reflexivity. }
  split; [reflexivity|]. split; [|split; [exact Hany|split; [exact Hfirst|]]].
  - intros m _. unfold foreign_schema. rewrite negb_true_iff.
    rewrite <- not_true_iff_false, mem_In. reflexivity.
  - intros k sp name tail Hq Hk Hsp1 Hsp2 Hn1 Hn2 Hforeign.
    destruct (findall_select_star k sp name tail Hk Hsp1 Hsp2 Hn1 Hn2)
      as [more Hfind].
    rewrite <- Hq in Hfind. split.
    + apply (Hany name); [rewrite Hfind; left; reflexivity | exact Hforeign].
    + intros Hc Huse. rewrite (Hfirst Hc Huse), Hfind. cbn [find].
      rewrite Hforeign. reflexivity.
Qed.

Lemma schema_scan_rejects_foreign_schema_witness :
  validate_database_context enforced "SELECT * FROM public.users" = (true, "")
  /\ validate_database_context enforced "SELECT * FROM secret.users"
     = (false, msg_schema "secret")
  /\ fst (validate_database_context enforced
            "SELECT * FROM Public.a JOIN x.house h ON 1 = 1") = false.
Proof.
  split; [|split].
  - rewrite (proj1 (proj2 (proj2 (proj2 (schema_scan_rejects_foreign_schema
               enforced "SELECT * FROM public.users" eq_refl)))) eq_refl eq_refl).
    vm_compute. reflexivity.
  - apply (proj2 (proj2 (proj2 (proj2 (schema_scan_rejects_foreign_schema
               enforced "SELECT * FROM secret.users" eq_refl))))
             "FROM" " " "secret" "users");
      try reflexivity; discriminate.
  - apply (proj1 (proj2 (proj2 (schema_scan_rejects_foreign_schema
               enforced "SELECT * FROM Public.a JOIN x.house h ON 1 = 1"
               eq_refl)))
             "x"); vm_compute; [tauto | reflexivity].
Defined.

(** ** Further properties of the handler *)

(** *** What a match of the schema pattern looks like *)

Lemma eat_lit_inv l : forall p q,
  Re.eat_lit l p = Some q ->
  exists k, ci_equal l k = true /\ Re.rest p = k ++ Re.rest q /\
            q = skip_over k (Re.rest q) p.
Proof.
  induction l as [|a l IH]; intros p q H.
  - cbn in H. injection H as <-. exists "". repeat split.
  - cbn [Re.eat_lit] in H.
    destruct (Re.rest p) as [|c s'] eqn:Hrest; [discriminate H|].
    destruct (Re.ci_eqb a c) eqn:Hc; [|discriminate H].
    destruct (IH _ _ H) as [k [Hk [Hr Hq]]]. cbn [Re.advance Re.rest] in Hr.
    exists (String c k). cbn [ci_equal append skip_over].
    rewrite Hc, Hk, <- Hr. repeat split. exact Hq.
Qed.

Lemma eat_plus_inv cls : forall s p q,
  In q (Re.eat_plus cls s p) ->
  exists k, k <> "" /\ all_chars cls k = true /\ s = k ++ Re.rest q /\
            q = skip_over k (Re.rest q) p.
Proof.
  induction s as [|c s IH]; intros p q H; [elim H|].
  cbn [Re.eat_plus] in H. destruct (cls c) eqn:Hc; [|elim H].
  apply in_app_or in H as [H|[H|[]]].
  - destruct (IH _ _ H) as [k [_ [Hall [Hs Hq]]]].
    exists (String c k). cbn [all_chars append skip_over].
    rewrite Hc, Hall, <- Hs. repeat split; [discriminate | exact Hq].
  - subst q. exists (String c ""). cbn [all_chars append skip_over Re.advance
      Re.rest]. rewrite Hc. repeat split. discriminate.
Qed.

Lemma lower_char_dot c : lower_char c = "."%char -> c = "."%char.
Proof.
  unfold lower_char. destruct (is_ascii_upper c) eqn:E; [|exact id].
  intro H. exfalso.
  unfold is_ascii_upper, in_range in E. apply andb_true_iff in E as [Hlo Hhi].
  apply Nat.leb_le in Hlo, Hhi.
  apply (f_equal nat_of_ascii) in H.
  rewrite nat_ascii_embedding in H by lia. cbn in H. lia.
Qed.

Lemma ci_equal_dot k : ci_equal "." k = true -> k = ".".
Proof.
  destruct k as [|c [|c' k]]; cbn [ci_equal]; try discriminate.
  - rewrite andb_true_r. unfold Re.ci_eqb. intro H.
    apply Ascii.eqb_eq in H. symmetry in H. apply lower_char_dot in H.
    subst c. reflexivity.
  - rewrite andb_false_r. discriminate.
Qed.

Lemma run_keyword_alternatives_inv p q :
  In q (Re.run keyword_alternatives p) ->
  exists k, is_keyword k = true /\ Re.rest p = k ++ Re.rest q /\
            q = skip_over k (Re.rest q) p.
Proof.
  unfold keyword_alternatives, is_keyword. cbn [Re.run]. intro H.
  assert (Hlit : forall l,
            In q (match Re.eat_lit l p with Some p' => [p'] | None => [] end) ->
            exists k, ci_equal l k = true /\ Re.rest p = k ++ Re.rest q /\
                      q = skip_over k (Re.rest q) p).
  { intros l Hin. destruct (Re.eat_lit l p) as [p'|] eqn:E; [|elim Hin].
    destruct Hin as [<-|[]]. exact (eat_lit_inv l p p' E). }
  apply in_app_or in H as [H|H];
    [|apply in_app_or in H as [H|H]; [|apply in_app_or in H as [H|H]]];
    destruct (Hlit _ H) as [k [Hk Hrest]]; exists k; rewrite Hk;
    repeat rewrite orb_true_r; split; try reflexivity; exact Hrest.
Qed.

Lemma is_keyword_letters k : is_keyword k = true -> all_chars is_word k = true.
Proof.
  assert (H : forall l k, all_chars is_ascii_upper l = true ->
                          ci_equal l k = true -> all_chars is_word k = true).
  { induction l as [|a l IH]; intros [|c k'] Hl Hk; try discriminate Hk;
      [reflexivity|].
    cbn [all_chars ci_equal] in *.
    apply andb_true_iff in Hl as [Ha Hl]. apply andb_true_iff in Hk as [Hc Hk].
    rewrite (ci_eqb_letter_is_word a c Ha Hc). exact (IH _ Hl Hk). }
  unfold is_keyword. repeat rewrite orb_true_iff.
  intros [[[Hk|Hk]|Hk]|Hk]; (eapply H; [|exact Hk]); reflexivity.
Qed.

(** The pattern matches at a position exactly when the text there is a
    keyword not preceded by a word character, whitespace, a name free of
    whitespace and dots, and a dot; the match spans all four and the group
    is the name. *)
Lemma match_here_database_pattern_inv before s n g :
  Re.match_here database_pattern before s = Some (n, g) ->
  exists k sp tail,
    Re.word_opt before = false /\ is_keyword k = true /\
    sp <> "" /\ all_chars is_space sp = true /\
    g <> "" /\ all_chars not_space_or_dot g = true /\
    s = k ++ sp ++ g ++ "." ++ tail /\
    n = String.length k + String.length sp + String.length g + 1.
Proof.
  unfold Re.match_here.
  destruct (Re.run database_pattern (Re.start before s)) as [|q more] eqn:E;
    [discriminate|].
  intro H. injection H as Hn Hg.
  assert (Hin : In q (Re.run database_pattern (Re.start before s)))
    by (rewrite E; left; reflexivity).
  clear E. unfold database_pattern in Hin.
  set (p0 := Re.start before s) in *.
  cbn [Re.run] in Hin.
  apply in_flat_map in Hin as [p0' [Hwb Hin]].
  destruct (xorb _ _) eqn:Hx in Hwb; [|elim Hwb].
  destruct Hwb as [<-|[]].
  apply in_flat_map in Hin as [p1 [H1 Hin]].
  apply (run_keyword_alternatives_inv p0 p1) in H1 as [k [Hk [R0 Q1]]].
  apply in_flat_map in Hin as [p2 [H2 Hin]].
  apply eat_plus_inv in H2 as [sp [Hsp1 [Hsp2 [R1 Q2]]]].
  apply in_flat_map in Hin as [p3' [H3 Hin]].
  apply in_map_iff in H3 as [p3 [<- H3]].
  apply eat_plus_inv in H3 as [name [Hn1 [Hn2 [R2 Q3]]]].
  destruct (Re.eat_lit "." (Re.close_group p2 p3)) as [p4|] eqn:E4;
    [|elim Hin].
  destruct Hin as [<-|[]].
  apply eat_lit_inv in E4 as [d [Hd [R3 Q4]]].
  apply ci_equal_dot in Hd. subst d.
  cbn [Re.close_group Re.rest] in R3.
  assert (Hname : g = name).
  { rewrite <- Hg, Q4. rewrite skip_over_group. cbn [Re.close_group Re.group1].
    rewrite Q3 at 1. rewrite skip_over_consumed.
    replace (Re.consumed p2 + String.length name - Re.consumed p2)
      with (String.length name) by lia.
    rewrite R2. apply substring_prefix. }
  clear Hg. subst g. exists k, sp, (Re.rest p4).
  assert (Hs : s = k ++ sp ++ name ++ "." ++ Re.rest p4).
  { change s with (Re.rest p0). rewrite R0, R1, R2, R3. reflexivity. }
  repeat split; try assumption.
  - destruct (is_keyword_starts_with_letter k Hk) as [c [k' [Ek Hc]]].
    unfold Re.next_char in Hx. change (Re.rest p0) with s in Hx.
    rewrite Hs, Ek in Hx. cbn [append Re.word_opt] in Hx. rewrite Hc in Hx.
    change (Re.prev p0) with before in Hx.
    destruct (Re.word_opt before); [discriminate Hx | reflexivity].
  - rewrite <- Hn, Q4, skip_over_consumed. cbn [Re.close_group Re.consumed].
    rewrite Q3, skip_over_consumed, Q2, skip_over_consumed, Q1,
      skip_over_consumed.
    cbn [p0 Re.start Re.consumed String.length]. lia.
Qed.

(** *** Character classes are disjoint where the pattern needs it *)

Lemma word_not_space c : is_word c = true -> is_space c = false.
Proof.
  intro Hw. apply not_true_iff_false. intro Hs.
  unfold is_word, is_space, is_ascii_upper, is_ascii_lower, is_ascii_digit,
    in_range in *.
  repeat rewrite ?orb_true_iff, ?andb_true_iff, ?Nat.leb_le, ?Nat.eqb_eq in Hw.
  repeat rewrite ?orb_true_iff, ?andb_true_iff, ?Nat.leb_le, ?Nat.eqb_eq in Hs.
  lia.
Qed.

Lemma word_not_space_or_dot c : is_word c = true -> not_space_or_dot c = true.
Proof.
  intro Hw. unfold not_space_or_dot. rewrite (word_not_space c Hw).
  destruct (Ascii.eqb_spec c "."%char) as [->|_]; [discriminate Hw|reflexivity].
Qed.

Lemma all_chars_impl (P Q : ascii -> bool) s :
  (forall c, P c = true -> Q c = true) ->
  all_chars P s = true -> all_chars Q s = true.
Proof.
  intro HPQ. induction s as [|c s IH]; [reflexivity|].
  cbn [all_chars]. intro H. apply andb_true_iff in H as [Hc Hs].
  rewrite (HPQ c Hc), (IH Hs). reflexivity.
Qed.

(** Two readings of one text as a run of the class followed by a character
    outside it agree on that character. *)
Lemma run_end_unique cls : forall u v x y r r',
  all_chars cls u = true -> all_chars cls v = true ->
  cls x = false -> cls y = false ->
  u ++ String x r = v ++ String y r' -> x = y.
Proof.
  induction u as [|a u IH]; intros [|b v] x y r r' Hu Hv Hx Hy H;
    cbn [append all_chars] in *.
  - injection H as -> _. reflexivity.
  - injection H as -> _. apply andb_true_iff in Hv as [Hb _]. congruence.
  - injection H as -> _. apply andb_true_iff in Hu as [Ha _]. congruence.
  - injection H as _ H. apply andb_true_iff in Hu as [_ Hu].
    apply andb_true_iff in Hv as [_ Hv]. exact (IH _ _ _ _ _ Hu Hv Hx Hy H).
Qed.

(** *** [findall] reports exactly the qualified references *)

Lemma findall_from_sound r : forall s before skip g,
  In g (Re.findall_from r before skip s) ->
  exists pre s' n,
    s = pre ++ s' /\ Re.match_here r (char_before before pre) s' = Some (n, g).
Proof.
  assert (Hcons : forall c s0 before' (g : string),
    (exists pre s' n, s0 = pre ++ s' /\
       Re.match_here r (char_before (Some c) pre) s' = Some (n, g)) ->
    exists pre s' n, String c s0 = pre ++ s' /\
       Re.match_here r (char_before before' pre) s' = Some (n, g)).
  { intros c s0 before' g [pre [s' [n [Hs Hm]]]].
    exists (String c pre), s', n. cbn [append char_before]. rewrite Hs.
    split; [reflexivity | exact Hm]. }
  induction s as [|c s0 IH]; intros before skip g Hin.
  - destruct skip as [|j]; [|elim Hin]. cbn [Re.findall_from] in Hin.
    destruct (Re.match_here r before "") as [[n g']|] eqn:E; [|elim Hin].
    destruct Hin as [<-|[]]. exists "", "", n. split; [reflexivity|exact E].
  - destruct skip as [|j]; cbn [Re.findall_from] in Hin.
    + destruct (Re.match_here r before (String c s0)) as [[n g']|] eqn:E.
      * destruct Hin as [<-|Hin].
        -- exists "", (String c s0), n. split; [reflexivity|exact E].
        -- apply Hcons. exact (IH _ _ _ Hin).
      * apply Hcons. exact (IH _ _ _ Hin).
    + apply Hcons. exact (IH _ _ _ Hin).
Qed.

Lemma covered_step before j x s :
  covered before (S j) (String x s) -> j = 0 \/ covered (Some x) j s.
Proof.
  intros [a [b [c [t [Hs [Hn [Ha [Hbefore [Hb Hc]]]]]]]]].
  destruct a as [|a0 a].
  - destruct b as [|b0 b].
    + destruct c as [|c0 c].
      * left. cbn in Hn. lia.
      * right. cbn [append] in Hs. injection Hs as -> ->.
        exists "", "", c, t. cbn [all_chars] in Hc.
        apply andb_true_iff in Hc as [_ Hc]. cbn [String.length] in *.
        repeat split; try assumption; try reflexivity; try lia.
        intro H. elim H. reflexivity.
    + right. cbn [append] in Hs. injection Hs as -> ->.
      exists "", b, c, t. cbn [all_chars] in Hb.
      apply andb_true_iff in Hb as [_ Hb]. cbn [String.length] in *.
      repeat split; try assumption; try reflexivity; try lia.
      intro H. elim H. reflexivity.
  - right. cbn [append] in Hs. injection Hs as -> ->.
    exists a, b, c, t. cbn [all_chars] in Ha.
    apply andb_true_iff in Ha as [Ha0 Ha]. cbn [String.length] in *.
    repeat split; try assumption; try reflexivity; try lia.
    intros _. exact Ha0.
Qed.

Lemma covered_after_match before x s n g :
  Re.match_here database_pattern before (String x s) = Some (n, g) ->
  covered (Some x) (pred n) s.
Proof.
  intro H. apply match_here_database_pattern_inv in H
    as [k [sp [tail [_ [Hk [_ [Hsp [_ [Hg [Hs Hn]]]]]]]]]].
  pose proof (is_keyword_letters k Hk) as Hw.
  destruct k as [|k0 k]; [discriminate Hk|].
  cbn [append] in Hs. injection Hs as -> ->.
  cbn [all_chars] in Hw. apply andb_true_iff in Hw as [Hx Hw].
  exists k, sp, g, tail. cbn [String.length] in Hn.
  repeat split; try assumption; try (subst n; cbn; lia).
  intros _. exact Hx.
Qed.

Lemma not_covered_at_keyword before skip k sp name tail :
  Re.word_opt before = false ->
  is_keyword k = true -> sp <> "" -> all_chars is_space sp = true ->
  ~ covered before skip (k ++ sp ++ name ++ "." ++ tail).
Proof.
  intros Hb Hk Hsp1 Hsp2 [a [b [c [t [Hs [_ [_ [Hbefore [Hbs Hc]]]]]]]]].
  destruct (is_keyword_starts_with_letter k Hk) as [k0 [k' [Ek Hk0]]].
  destruct a as [|a0 a];
    [|rewrite Hbefore in Hb; [discriminate Hb | discriminate]].
  destruct b as [|b0 b].
  - (* the covered text is a name and a dot: the first character outside
       the class would be both the dot and a whitespace character *)
    destruct sp as [|w sp]; [elim Hsp1; reflexivity|].
    cbn [all_chars] in Hsp2. apply andb_true_iff in Hsp2 as [Hw _].
    cbn [append] in Hs.
    assert (Hx : w = "."%char).
    { apply (run_end_unique not_space_or_dot k c w "."%char
               (sp ++ name ++ "." ++ tail) t).
      - exact (all_chars_impl _ _ k word_not_space_or_dot
                 (is_keyword_letters k Hk)).
      - exact Hc.
      - unfold not_space_or_dot. rewrite Hw. reflexivity.
      - reflexivity.
      - exact Hs. }
    subst w. discriminate Hw.
  - subst k. cbn [append] in Hs. injection Hs as -> _.
    cbn [all_chars] in Hbs. apply andb_true_iff in Hbs as [Hb0 _].
    rewrite (word_not_space _ Hk0) in Hb0. discriminate Hb0.
Qed.

Lemma findall_from_complete : forall pre before skip k sp name tail,
  skip = 0 \/ covered before skip (pre ++ k ++ sp ++ name ++ "." ++ tail) ->
  Re.word_opt (char_before before pre) = false ->
  is_keyword k = true ->
  sp <> "" -> all_chars is_space sp = true ->
  name <> "" -> all_chars not_space_or_dot name = true ->
  In name (Re.findall_from database_pattern before skip
             (pre ++ k ++ sp ++ name ++ "." ++ tail)).
Proof.
  induction pre as [|x pre IH];
    intros before skip k sp name tail Hcov Hb Hk Hsp1 Hsp2 Hn1 Hn2.
  - change ("" ++ k ++ sp ++ name ++ "." ++ tail)
      with (k ++ sp ++ name ++ "." ++ tail) in *.
    cbn [char_before] in Hb.
    assert (skip = 0) as ->.
    { destruct Hcov as [H|H]; [exact H|].
      elim (not_covered_at_keyword before skip k sp name tail Hb Hk Hsp1 Hsp2 H). }
    destruct (findall_from_hit database_pattern before
                (k ++ sp ++ name ++ "." ++ tail) _ name
                (match_here_database_pattern before k sp name tail
                   Hb Hk Hsp1 Hsp2 Hn1 Hn2)) as [more ->].
    left. reflexivity.
  - change (String x pre ++ k ++ sp ++ name ++ "." ++ tail)
      with (String x (pre ++ k ++ sp ++ name ++ "." ++ tail)) in *.
    cbn [char_before] in Hb.
    destruct skip as [|j]; cbn [Re.findall_from].
    + destruct (Re.match_here database_pattern before _) as [[n g]|] eqn:E.
      * right. apply IH; try assumption.
        right. exact (covered_after_match before x _ n g E).
      * apply IH; try assumption. left. reflexivity.
    + apply IH; try assumption.
      destruct Hcov as [H|H]; [discriminate H|].
      exact (covered_step before j x _ H).
Qed.

Lemma findall_schema_reference query name :
  In name (Re.findall database_pattern query) <-> schema_reference query name.
Proof.
  split.
  - intro Hin. apply findall_from_sound in Hin as [pre [s' [n [Hq Hm]]]].
    apply match_here_database_pattern_inv in Hm
      as [k [sp [tail [Hb [Hk [Hsp1 [Hsp2 [Hn1 [Hn2 [Hs _]]]]]]]]]].
    exists pre, k, sp, tail. subst s'. repeat split; assumption.
  - intros [pre [k [sp [tail [-> [Hb [Hk [Hsp1 [Hsp2 [Hn1 Hn2]]]]]]]]]].
    apply findall_from_complete; try assumption. left. reflexivity.
Qed.

(** X1. On ASCII text the schema pattern matches at a position exactly
    when the text there reads: a keyword FROM, JOIN, INTO or UPDATE in any
    mix of cases, not preceded by a word character; one or more whitespace
    characters; one or more characters that are neither whitespace nor a
    dot; a dot.  The match is all of that and the group is the third
    part. *)
Theorem schema_pattern_match_iff
  (before : option ascii) (s : string) (n : nat) (g : string) :
  ascii_before before = true -> is_ascii s = true ->
  (Re.match_here database_pattern before s = Some (n, g) <->
   exists k sp tail,
     Re.word_opt before = false /\ is_keyword k = true /\
     sp <> "" /\ all_chars is_space sp = true /\
     g <> "" /\ all_chars not_space_or_dot g = true /\
     s = k ++ sp ++ g ++ "." ++ tail /\
     n = String.length k + String.length sp + String.length g + 1).
Proof.
  intros _ _.
  split; [apply match_here_database_pattern_inv|].
  intros [k [sp [tail [Hb [Hk [Hsp1 [Hsp2 [Hn1 [Hn2 [-> ->]]]]]]]]]].
  apply match_here_database_pattern; assumption.
Qed.

Lemma schema_pattern_match_iff_witness :
  Re.match_here database_pattern (Some " "%char)
    ("jOiN" ++ String "009" " " ++ "Audit.log l")
  = Some (12, "Audit").
Proof.
  apply (proj2 (schema_pattern_match_iff (Some " "%char)
                  ("jOiN" ++ String "009" " " ++ "Audit.log l") 12 "Audit"
                  eq_refl eq_refl)).
  exists "jOiN", (String "009" " "), "log l".
  repeat split; try discriminate.
Defined.

Lemma validate_accepts_spec
  (self : PostgreSQLHandler) (query : string) :
  fst (validate_database_context self query) = true <->
  str_in "\C " (upper (strip query)) = false /\
  str_in "USE " (upper (strip query)) = false /\
  (forall name, schema_reference query name -> foreign_schema name = false).
Proof.
  unfold validate_database_context.
  destruct (str_in "\C " (upper (strip query)));
    [cbn; split; [discriminate | intros [H _]; discriminate H]|].
  destruct (str_in "USE " (upper (strip query)));
    [cbn; split; [discriminate | intros [_ [H _]]; discriminate H]|].
  cbn [orb database_patterns check_patterns].
  destruct (find foreign_schema (Re.findall database_pattern query))
    as [m|] eqn:E; cbn [fst]; split.
  - discriminate.
  - intros [_ [_ H]]. apply find_some in E as [Hin Hf].
    apply findall_schema_reference in Hin. rewrite (H m Hin) in Hf.
    discriminate Hf.
  - intros _. repeat split. intros name Href.
    apply findall_schema_reference in Href. exact (find_none _ _ E name Href).
  - reflexivity.
Qed.

(** X2. [validate_database_context] accepts a query of ASCII text exactly
    when its stripped, upper-cased text holds neither switch substring and
    every schema-qualified reference in the original text -- a keyword at
    a word boundary, whitespace, a name, a dot -- names public, pg_catalog
    or information_schema in some mix of cases.  No ASCII query holding a
    reference to another schema is ever accepted, wherever the reference
    stands and whatever surrounds it. *)
Theorem validate_database_context_accepts_iff
  (self : PostgreSQLHandler) (query : string) :
  is_ascii query = true ->
  (fst (validate_database_context self query) = true <->
   str_in "\C " (upper (strip query)) = false /\
   str_in "USE " (upper (strip query)) = false /\
   (forall name, schema_reference query name -> foreign_schema name = false)).
Proof.
  intros _. exact (validate_accepts_spec self query).
Qed.

Lemma validate_database_context_accepts_iff_witness :
  fst (validate_database_context enforced
         "select u.id from Public.users u join pg_catalog.pg_class c on 1=1")
  = true.
Proof.
  apply (proj2 (validate_database_context_accepts_iff enforced
    "select u.id from Public.users u join pg_catalog.pg_class c on 1=1"
    eq_refl)).
  split; [reflexivity|]. split; [reflexivity|].
  intros name Href. apply findall_schema_reference in Href.
  vm_compute in Href. destruct Href as [<-|[<-|[]]]; reflexivity.
Defined.

(** X3. When [validate_database_context] rejects a query of ASCII text,
    the message tells why: either the stripped, upper-cased text holds a
    switch substring and the message is the database-switch one, naming
    the configured database; or it holds none and the message names a
    schema [m] that the text really refers to -- keyword, whitespace, [m],
    dot -- and that is not one of the three permitted. *)
Theorem validate_database_context_rejection_reason
  (self : PostgreSQLHandler) (query : string) :
  is_ascii query = true ->
  fst (validate_database_context self query) = false ->
  ((str_in "\C " (upper (strip query)) = true \/
    str_in "USE " (upper (strip query)) = true) /\
   snd (validate_database_context self query) = msg_switch self) \/
  (str_in "\C " (upper (strip query)) = false /\
   str_in "USE " (upper (strip query)) = false /\
   exists m, snd (validate_database_context self query) = msg_schema m /\
             schema_reference query m /\ foreign_schema m = true).
Proof.
  intros _. unfold validate_database_context.
  destruct (str_in "\C " (upper (strip query)));
    [intros _; left; split; [left|]; reflexivity|].
  destruct (str_in "USE " (upper (strip query)));
    [intros _; left; split; [right|]; reflexivity|].
  cbn [orb database_patterns check_patterns].
  destruct (find foreign_schema (Re.findall database_pattern query))
    as [m|] eqn:E; cbn [fst snd]; [|discriminate].
  intros _. right. repeat split. exists m.
  apply find_some in E as [Hin Hf]. apply findall_schema_reference in Hin.
  repeat split; assumption.
Qed.

Lemma validate_database_context_rejection_reason_witness :
  exists m,
    snd (validate_database_context enforced "UPDATE stats.daily SET n = 0")
      = msg_schema m /\
    schema_reference "UPDATE stats.daily SET n = 0" m /\
    foreign_schema m = true.
Proof.
  destruct (validate_database_context_rejection_reason enforced
              "UPDATE stats.daily SET n = 0" eq_refl eq_refl)
    as [[[H|H] _]|[_ [_ H]]];
    [discriminate H | discriminate H | exact H].
Defined.

(** *** What the statement check admits *)

Lemma select_safety_accepts_iff self st :
  fst (_check_select_safety self st) = true <->
  (forall construct,
     In construct
        ["INTO OUTFILE"; "COPY "; "PG_READ_FILE("; "PG_LS_DIR("; "@@";
         "UNION"] ->
     str_in construct (upper (statement_str st)) = false) /\
  (forall t, In t (preorder_statement st) -> is_dangerous_dml_token t = false).
Proof.
  unfold _check_select_safety. cbn [dangerous_constructs find fst].
  set (text := upper (statement_str st)).
  assert (Hno : forall needle,
            In needle ["INTO OUTFILE"; "COPY "; "PG_READ_FILE("; "PG_LS_DIR(";
                       "@@"; "UNION"] ->
            str_in needle text = true ->
            ~ ((forall construct,
                  In construct
                     ["INTO OUTFILE"; "COPY "; "PG_READ_FILE("; "PG_LS_DIR(";
                      "@@"; "UNION"] ->
                  str_in construct text = false) /\
               (forall t, In t (preorder_statement st) ->
                  is_dangerous_dml_token t = false))).
  { intros needle Hin Htrue [H _]. rewrite (H needle Hin) in Htrue.
    discriminate Htrue. }
  destruct (str_in "INTO OUTFILE" text) eqn:E1;
    [split; [discriminate | intro H; elim (Hno "INTO OUTFILE" ltac:(cbn; tauto) E1 H)]|].
  destruct (str_in "COPY " text) eqn:E2;
    [split; [discriminate | intro H; elim (Hno "COPY " ltac:(cbn; tauto) E2 H)]|].
  destruct (str_in "PG_READ_FILE(" text) eqn:E3;
    [split; [discriminate | intro H; elim (Hno "PG_READ_FILE(" ltac:(cbn; tauto) E3 H)]|].
  destruct (str_in "PG_LS_DIR(" text) eqn:E4;
    [split; [discriminate | intro H; elim (Hno "PG_LS_DIR(" ltac:(cbn; tauto) E4 H)]|].
  destruct (str_in "@@" text) eqn:E5;
    [split; [discriminate | intro H; elim (Hno "@@" ltac:(cbn; tauto) E5 H)]|].
  destruct (str_in "UNION" text) eqn:E6;
    [split; [discriminate | intro H; elim (Hno "UNION" ltac:(cbn; tauto) E6 H)]|].
  clear Hno. rewrite check_nested_preorder.
  destruct (find is_dangerous_dml_token (preorder_statement st)) as [t|] eqn:E;
    cbn [nested_verdict fst]; split.
  - discriminate.
  - intros [_ H]. apply find_some in E as [Hin Hd].
    rewrite (H t Hin) in Hd. discriminate Hd.
  - intros _. split.
    + intros construct Hin. cbn [In] in Hin.
      repeat (destruct Hin as [<-|Hin]; [assumption|]). elim Hin.
    + intros t Hin. exact (find_none _ _ E t Hin).
  - reflexivity.
Qed.

Lemma check_statement_admissible self st :
  fst (_check_statement_safety self st) = true <-> statement_admissible st.
Proof.
  unfold statement_admissible.
  destruct (first_token st) as [tok|] eqn:Ht.
  - rewrite (check_statement_verb self st tok Ht).
    destruct (mem (_extract_sql_keyword tok) safe_commands) eqn:Em;
      cbn [negb].
    + destruct (String.eqb (_extract_sql_keyword tok) "SELECT") eqn:Es.
      * rewrite select_safety_accepts_iff. split.
        -- intro H. exists tok. split; [reflexivity|].
           split; [apply mem_In; exact Em | intros _; exact H].
        -- intros [tok' [Ht' [_ H]]]. injection Ht' as <-.
           apply H. apply String.eqb_eq. exact Es.
      * split; [|reflexivity]. intros _. exists tok.
        split; [reflexivity|]. split; [apply mem_In; exact Em|].
        intro Hs. rewrite Hs in Es. discriminate Es.
    + split; [discriminate|]. intros [tok' [Ht' [Hin _]]].
      injection Ht' as <-. apply mem_In in Hin. congruence.
  - unfold _check_statement_safety. unfold first_token in Ht. rewrite Ht.
    split; [discriminate|]. intros [tok [H _]]. discriminate H.
Qed.

Lemma check_statements_accepts_iff self parsed :
  fst (check_statements self parsed) = true <->
  Forall statement_admissible parsed.
Proof.
  induction parsed as [|st r IH]; cbn [check_statements].
  - split; [constructor | reflexivity].
  - pose proof (check_statement_admissible self st) as Hst.
    destruct (_check_statement_safety self st) as [is_safe error_msg].
    cbn [fst] in Hst. destruct is_safe; cbn [negb].
    + rewrite IH. split.
      * intro H. constructor; [apply Hst; reflexivity | exact H].
      * intro H. inversion H. assumption.
    + split; [discriminate|]. intro H. inversion H as [|? ? Hadm _].
      apply Hst in Hadm. discriminate Hadm.
Qed.

Lemma check_statements_first_rejecting self parsed :
  check_statements self parsed =
  match find (fun st => negb (fst (_check_statement_safety self st))) parsed
  with
  | Some st => (false, snd (_check_statement_safety self st))
  | None => (true, "")
  end.
Proof.
  induction parsed as [|st r IH]; [reflexivity|].
  cbn [check_statements find].
  destruct (_check_statement_safety self st) as [is_safe error_msg] eqn:E.
  destruct is_safe; cbn [fst snd negb]; [exact IH|].
  rewrite E. reflexivity.
Qed.

(** X4. [_check_statement_safety] accepts a statement of ASCII text
    exactly when its first token that is not whitespace yields a keyword
    among SELECT, SHOW, DESCRIBE, DESC, EXPLAIN and WITH, and -- if that
    keyword is SELECT -- the upper-cased text holds none of INTO OUTFILE,
    COPY with a space, PG_READ_FILE(, PG_LS_DIR(, [@@] and UNION, and no
    node of the token tree, at any depth, is a DML keyword of the mutating
    set.  The condition does not mention the handler: its language and its
    database have no part in the decision. *)
Theorem statement_accepted_iff_admissible
  (self : PostgreSQLHandler) (st : statement) :
  ascii_statement st = true ->
  (_check_statement_safety self st = (true, "") <-> statement_admissible st) /\
  (forall other : PostgreSQLHandler,
     fst (_check_statement_safety other st)
     = fst (_check_statement_safety self st)).
Proof.
  intros _. split.
  - rewrite <- (check_statement_admissible self st).
    pose proof (well_formed_statement self st) as W.
    destruct (_check_statement_safety self st) as [b m].
    unfold well_formed in W. cbn [fst snd] in *. split.
    + intro H. injection H as -> _. reflexivity.
    + intro Hb. subst b.
      destruct W as [[_ Hm]|[Hb _]]; [subst m; reflexivity | discriminate Hb].
  - intro other.
    pose proof (check_statement_admissible self st) as H1.
    pose proof (check_statement_admissible other st) as H2.
    destruct (fst (_check_statement_safety self st)),
             (fst (_check_statement_safety other st)); try reflexivity.
    + apply H2, H1. reflexivity.
    + symmetry. apply H1, H2. reflexivity.
Qed.

Lemma statement_accepted_iff_admissible_witness :
  statement_admissible st_batch_1 /\ ~ statement_admissible st_nested.
Proof.
  split.
  - apply (proj1 (statement_accepted_iff_admissible enforced st_batch_1
                    eq_refl)).
    reflexivity.
  - intro H.
    apply (proj1 (statement_accepted_iff_admissible enforced st_nested
                    eq_refl)) in H.
    discriminate H.
Defined.

Lemma is_query_safe_accepts_spec
  (parse : string -> result (list statement))
  (self : PostgreSQLHandler) (query : string) :
  allow_dangerous_operations self = false ->
  (fst (is_query_safe parse self query) = true <->
   exists st r, parse query = Return (st :: r) /\
                Forall statement_admissible (st :: r)).
Proof.
  intro Hmode. unfold is_query_safe, is_query_safe_body. rewrite Hmode.
  destruct (parse query) as [[|st r]|e]; cbn [fst].
  - split; [discriminate | intros [st [r [H _]]]; discriminate H].
  - rewrite check_statements_accepts_iff. split.
    + intro H. exists st, r. split; [reflexivity | exact H].
    + intros [st' [r' [H Hall]]]. injection H as <- <-. exact Hall.
  - split; [discriminate | intros [st [r [H _]]]; discriminate H].
Qed.

(** X5. In enforced mode, when the parser returns statements of ASCII
    text, [is_query_safe] accepts the query exactly when there is at least
    one statement and every statement is admissible; and the decision is
    the one of the first statement that is rejected, with its message, the
    statements after it having no influence. *)
Theorem batch_accepted_iff_all_admissible
  (parse : string -> result (list statement))
  (self : PostgreSQLHandler) (query : string) :
  allow_dangerous_operations self = false ->
  (forall parsed, parse query = Return parsed ->
     forallb ascii_statement parsed = true) ->
  (fst (is_query_safe parse self query) = true <->
   exists st r, parse query = Return (st :: r) /\
                Forall statement_admissible (st :: r)) /\
  (forall st r, parse query = Return (st :: r) ->
     is_query_safe parse self query =
     match find (fun s => negb (fst (_check_statement_safety self s)))
             (st :: r) with
     | Some s => (false, snd (_check_statement_safety self s))
     | None => (true, "")
     end).
Proof.
  intros Hmode _. split.
  - exact (is_query_safe_accepts_spec parse self query Hmode).
  - intros st r Hparse. unfold is_query_safe, is_query_safe_body.
    rewrite Hmode, Hparse. apply check_statements_first_rejecting.
Qed.

Lemma sample_parse_ascii query parsed :
  sample_parse query = Return parsed -> forallb ascii_statement parsed = true.
Proof.
  unfold sample_parse.
  repeat (match goal with
          | |- (if ?b then _ else _) = _ -> _ => destruct b
          end;
          [intro H; injection H as <-; reflexivity|]).
  discriminate.
Qed.

Lemma batch_accepted_iff_all_admissible_witness :
  is_query_safe sample_parse enforced q_batch
  = (false, snd (_check_statement_safety enforced st_batch_2))
  /\ ~ Forall statement_admissible [st_batch_1; st_batch_2].
Proof.
  destruct (batch_accepted_iff_all_admissible sample_parse enforced q_batch
              eq_refl (sample_parse_ascii q_batch)) as [Hiff Hfirst].
  split.
  - rewrite (Hfirst st_batch_1 [st_batch_2] eq_refl). reflexivity.
  - intro Hall.
    assert (H : fst (is_query_safe sample_parse enforced q_batch) = true).
    { apply Hiff. exists st_batch_1, [st_batch_2].
      split; [reflexivity | exact Hall]. }
    discriminate H.
Defined.

Lemma execute_query_sends_spec
  (parse : string -> result (list statement))
  (self : PostgreSQLHandler) (query : string) :
  (execute_query parse self query = SentToDatabase query <->
   (allow_dangerous_operations self = true \/
    exists st r, parse query = Return (st :: r) /\
                 Forall statement_admissible (st :: r)) /\
   str_in "\C " (upper (strip query)) = false /\
   str_in "USE " (upper (strip query)) = false /\
   (forall name, schema_reference query name -> foreign_schema name = false))
  /\
  (execute_query parse self query <> SentToDatabase query ->
   exists message, execute_query parse self query = Rejected message).
Proof.
  assert (Hsafe : fst (is_query_safe parse self query) = true <->
            (allow_dangerous_operations self = true \/
             exists st r, parse query = Return (st :: r) /\
                          Forall statement_admissible (st :: r))).
  { destruct (allow_dangerous_operations self) eqn:Hmode.
    - unfold is_query_safe. rewrite Hmode. split; [left|]; reflexivity.
    - rewrite (is_query_safe_accepts_spec parse self query Hmode).
      split; [intro H; right; exact H | intros [H|H]; [discriminate H|exact H]].
  }
  pose proof (validate_accepts_spec self query) as Hctx.
  unfold execute_query.
  destruct (is_query_safe parse self query) as [is_safe safety_msg].
  destruct (validate_database_context self query) as [ok context_msg].
  cbn [fst] in Hsafe, Hctx.
  destruct is_safe; cbn [negb].
  - destruct ok; cbn [negb].
    + split; [|intro H; elim H; reflexivity].
      split; [intros _|reflexivity].
      split; [apply Hsafe; reflexivity | apply Hctx; reflexivity].
    + split; [|eauto]. split; [discriminate|].
      intros [_ H]. apply Hctx in H. discriminate H.
  - split; [|eauto]. split; [discriminate|].
    intros [H _]. apply Hsafe in H. discriminate H.
Qed.

(** X6. For a query of ASCII text that the parser turns into statements
    of ASCII text, [execute_query] goes on to the database exactly when
    the handler is permissive or the parser returns statements that are
    all admissible, and, in either mode, the text holds no switch
    substring and no reference to a schema other than the three permitted
    ones.  In every other case it returns a rejection without opening a
    connection. *)
Theorem execute_query_sends_iff
  (parse : string -> result (list statement))
  (self : PostgreSQLHandler) (query : string) :
  is_ascii query = true ->
  (forall parsed, parse query = Return parsed ->
     forallb ascii_statement parsed = true) ->
  (execute_query parse self query = SentToDatabase query <->
   (allow_dangerous_operations self = true \/
    exists st r, parse query = Return (st :: r) /\
                 Forall statement_admissible (st :: r)) /\
   str_in "\C " (upper (strip query)) = false /\
   str_in "USE " (upper (strip query)) = false /\
   (forall name, schema_reference query name -> foreign_schema name = false))
  /\
  (execute_query parse self query <> SentToDatabase query ->
   exists message, execute_query parse self query = Rejected message).
Proof.
  intros _ _. exact (execute_query_sends_spec parse self query).
Qed.

Lemma execute_query_sends_iff_witness :
  execute_query sample_parse enforced q_with = SentToDatabase q_with /\
  execute_query sample_parse permissive "DELETE FROM audit.log"
    <> SentToDatabase "DELETE FROM audit.log".
Proof.
  split.
  - apply (proj1 (execute_query_sends_iff sample_parse enforced q_with
                    eq_refl (sample_parse_ascii q_with))).
    split; [right|split; [reflexivity|split; [reflexivity|]]].
    + exists st_with, []. split; [reflexivity|]. constructor; [|constructor].
      apply (check_statement_admissible enforced). reflexivity.
    + intros name Href. apply findall_schema_reference in Href.
      vm_compute in Href. elim Href.
  - intro H.
    apply (proj1 (execute_query_sends_iff sample_parse permissive
                    "DELETE FROM audit.log" eq_refl
                    (sample_parse_ascii "DELETE FROM audit.log"))) in H.
    destruct H as [_ [_ [_ H]]].
    assert (Href : schema_reference "DELETE FROM audit.log" "audit")
      by (apply findall_schema_reference; vm_compute; tauto).
    apply H in Href. discriminate Href.
Defined.

(** *** Statements without content *)

Lemma find_not_none_forallb {A : Type} (f : A -> bool) (l : list A) :
  find (fun x => negb (f x)) l = None <-> forallb f l = true.
Proof.
  induction l as [|a l IH]; cbn [find forallb]; [tauto|].
  destruct (f a); cbn [negb andb]; [exact IH|].
  split; discriminate.
Qed.

Lemma decisions_differ_from_empty_statement self st :
  _check_select_safety self st <> (false, msg_empty_statement).
Proof.
  unfold _check_select_safety, msg_empty_statement.
  destruct (find _ dangerous_constructs) as [[c d]|].
  - unfold msg_construct, _get_message. destruct (is_chinese self);
      cbn [append]; discriminate.
  - destruct (str_in "UNION" _).
    + unfold msg_union, _get_message. destruct (is_chinese self); discriminate.
    + rewrite check_nested_preorder.
      destruct (find is_dangerous_dml_token _); cbn [nested_verdict];
        [|discriminate].
      unfold msg_nested, _get_message. destruct (is_chinese self);
        cbn [append]; discriminate.
Qed.

(** X7. [_check_statement_safety] answers with the empty-statement
    message exactly for the statements made of whitespace tokens only, the
    statement without tokens among them; no other rejection carries that
    message. *)
Theorem empty_statement_iff_whitespace_only
  (self : PostgreSQLHandler) (st : statement) :
  _check_statement_safety self st = (false, msg_empty_statement) <->
  forallb is_whitespace st = true.
Proof.
  rewrite <- find_not_none_forallb.
  change (find (fun x => negb (is_whitespace x)) st) with (first_token st).
  destruct (first_token st) as [tok|] eqn:Ht.
  - rewrite (check_statement_verb self st tok Ht).
    split; [|discriminate]. intro H. exfalso.
    destruct (negb _).
    + revert H. unfold msg_disallowed, msg_empty_statement, _get_message.
      destruct (is_chinese self); cbn [append]; discriminate.
    + destruct (String.eqb _ _); [|discriminate H].
      exact (decisions_differ_from_empty_statement self st H).
  - unfold _check_statement_safety. unfold first_token in Ht. rewrite Ht.
    split; reflexivity.
Qed.

Lemma empty_statement_iff_whitespace_only_witness :
  _check_statement_safety enforced [ws; Token T_Newline "
"; ws]
  = (false, msg_empty_statement)
  /\ _check_statement_safety enforced [] = (false, msg_empty_statement).
Proof.
  split;
    apply (proj2 (empty_statement_iff_whitespace_only enforced _));
    reflexivity.
Defined.

(** *** Letter case *)

Lemma upper_char_idem c : upper_char (upper_char c) = upper_char c.
Proof.
  unfold upper_char. destruct (is_ascii_lower c) eqn:E;
    [|rewrite E; reflexivity].
  assert (H : is_ascii_lower (ascii_of_nat (nat_of_ascii c - 32)) = false).
  { unfold is_ascii_lower, in_range in *.
    apply andb_true_iff in E as [Hlo Hhi]. apply Nat.leb_le in Hlo, Hhi.
    rewrite nat_ascii_embedding by lia.
    apply andb_false_iff. left. apply Nat.leb_gt. lia. }
  rewrite H. reflexivity.
Qed.

Lemma upper_idem s : upper (upper s) = upper s.
Proof.
  induction s as [|c s IH]; [reflexivity|].
  cbn [upper]. rewrite upper_char_idem, IH. reflexivity.
Qed.

Lemma upper_app a b : upper (a ++ b) = upper a ++ upper b.
Proof.
  induction a as [|c a IH]; [reflexivity|].
  cbn [append upper]. rewrite IH. reflexivity.
Qed.

Lemma is_space_upper_char c : is_space (upper_char c) = is_space c.
Proof.
  unfold upper_char. destruct (is_ascii_lower c) eqn:E; [|reflexivity].
  unfold is_ascii_lower, in_range in E.
  apply andb_true_iff in E as [Hlo Hhi]. apply Nat.leb_le in Hlo, Hhi.
  unfold is_space, in_range. rewrite nat_ascii_embedding by lia.
  repeat match goal with
  | |- context [(?a <=? ?b)%nat] =>
      destruct (Nat.leb_spec a b); try lia
  | |- context [(?a =? ?b)%nat] =>
      destruct (Nat.eqb_spec a b); try lia
  end; reflexivity.
Qed.

Lemma upper_lstrip s : upper (lstrip s) = lstrip (upper s).
Proof.
  induction s as [|c s IH]; [reflexivity|].
  cbn [lstrip upper]. rewrite is_space_upper_char.
  destruct (is_space c); [exact IH | reflexivity].
Qed.

Lemma upper_rstrip s : upper (rstrip s) = rstrip (upper s).
Proof.
  induction s as [|c s IH]; [reflexivity|].
  cbn [rstrip upper]. rewrite <- IH, is_space_upper_char.
  destruct (rstrip s) as [|c' r]; cbn [upper];
    [destruct (is_space c)|]; reflexivity.
Qed.

Lemma upper_strip s : upper (strip s) = strip (upper s).
Proof.
  unfold strip. rewrite upper_rstrip, upper_lstrip. reflexivity.
Qed.

(** The keyword of a group is that of its first child that is not
    whitespace. *)
Lemma extract_sql_keyword_group ts :
  _extract_sql_keyword (TokenList ts) =
  match find (fun t => negb (is_whitespace t)) ts with
  | Some sub_token => _extract_sql_keyword sub_token
  | None => strip (upper (token_str (TokenList ts)))
  end.
Proof.
  change (_extract_sql_keyword (TokenList ts)) with
    ((fix loop (l : list token) : string :=
        match l with
        | [] => strip (upper (token_str (TokenList ts)))
        | sub_token :: r =>
            if negb (is_whitespace sub_token)
            then _extract_sql_keyword sub_token
            else loop r
        end) ts).
  generalize (strip (upper (token_str (TokenList ts)))) as fallback.
  intro fallback. induction ts as [|t ts IH]; [reflexivity|].
  cbn [find]. destruct (negb (is_whitespace t)); [reflexivity | exact IH].
Qed.

Lemma extract_sql_keyword_leaf ty v :
  _extract_sql_keyword (Token ty v) =
  if tokentype_eqb ty T_Keyword_DML || tokentype_eqb ty T_Keyword
     || tokentype_eqb ty T_Keyword_CTE
  then upper v else strip (upper v).
Proof.
  destruct ty; reflexivity.
Qed.

Lemma upper_token_group ts :
  upper_token (TokenList ts) = TokenList (map upper_token ts).
Proof.
  reflexivity.
Qed.

Lemma token_str_group ts :
  token_str (TokenList ts) = statement_str ts.
Proof.
  reflexivity.
Qed.

Lemma statement_str_cons t ts :
  statement_str (t :: ts) = token_str t ++ statement_str ts.
Proof.
  reflexivity.
Qed.

Lemma token_str_upper_token : forall t,
  token_str (upper_token t) = upper (token_str t).
Proof.
  induction t as [ty v|ts IH] using token_ind; [reflexivity|].
  rewrite upper_token_group, !token_str_group.
  induction IH as [|t ts Ht _ IHts]; [reflexivity|].
  cbn [map]. rewrite !statement_str_cons, upper_app, Ht, IHts. reflexivity.
Qed.

Lemma statement_str_upper st :
  statement_str (map upper_token st) = upper (statement_str st).
Proof.
  rewrite <- !token_str_group, <- upper_token_group.
  apply token_str_upper_token.
Qed.

Lemma is_whitespace_upper_token t :
  is_whitespace (upper_token t) = is_whitespace t.
Proof.
  destruct t; reflexivity.
Qed.

Lemma find_map {A B : Type} (f : B -> bool) (g : A -> B) (l : list A) :
  find f (map g l) = option_map g (find (fun x => f (g x)) l).
Proof.
  induction l as [|a l IH]; [reflexivity|].
  cbn [map find]. destruct (f (g a)); [reflexivity | exact IH].
Qed.

Lemma find_pointwise {A : Type} (f g : A -> bool) (l : list A) :
  (forall x, f x = g x) -> find f l = find g l.
Proof.
  intro H. induction l as [|a l IH]; [reflexivity|].
  cbn [find]. rewrite H, IH. reflexivity.
Qed.

Lemma first_token_upper st :
  first_token (map upper_token st) = option_map upper_token (first_token st).
Proof.
  unfold first_token. rewrite find_map. f_equal.
  induction st as [|t st IH]; [reflexivity|].
  cbn [find]. rewrite is_whitespace_upper_token, IH. reflexivity.
Qed.

Lemma extract_sql_keyword_upper_token : forall t,
  _extract_sql_keyword (upper_token t) = _extract_sql_keyword t.
Proof.
  induction t as [ty v|ts IH] using token_ind.
  - cbn [upper_token]. rewrite !extract_sql_keyword_leaf, upper_idem.
    reflexivity.
  - rewrite upper_token_group, !extract_sql_keyword_group.
    rewrite <- upper_token_group, token_str_upper_token, upper_idem.
    fold (first_token (map upper_token ts)). rewrite first_token_upper.
    unfold first_token.
    generalize (strip (upper (token_str (TokenList ts)))) as fallback.
    intro fallback.
    induction IH as [|t ts Ht _ IHts]; [reflexivity|].
    cbn [find]. destruct (negb (is_whitespace t)); [exact Ht | exact IHts].
Qed.

Lemma is_dangerous_upper_token t :
  is_dangerous_dml_token (upper_token t) = is_dangerous_dml_token t.
Proof.
  destruct t as [ty v|ts]; [|reflexivity].
  unfold is_dangerous_dml_token, value. cbn [upper_token token_str].
  rewrite upper_idem. reflexivity.
Qed.

Lemma preorder_upper_token : forall t,
  preorder (upper_token t) = map upper_token (preorder t).
Proof.
  induction t as [ty v|ts IH] using token_ind; [reflexivity|].
  rewrite upper_token_group, !preorder_group. cbn [map]. f_equal.
  unfold preorder_statement.
  induction IH as [|t ts Ht _ IHts]; [reflexivity|].
  cbn [map flat_map]. rewrite map_app, Ht, IHts. reflexivity.
Qed.

Lemma check_nested_upper self st :
  _check_nested_dangerous_operations self (map upper_token st)
  = _check_nested_dangerous_operations self st.
Proof.
  rewrite !check_nested_preorder.
  assert (Hpre : preorder_statement (map upper_token st)
                 = map upper_token (preorder_statement st)).
  { unfold preorder_statement. induction st as [|t st IH]; [reflexivity|].
    cbn [map flat_map]. rewrite map_app, preorder_upper_token, IH.
    reflexivity. }
  rewrite Hpre, find_map.
  rewrite (find_pointwise (fun x => is_dangerous_dml_token (upper_token x))
             is_dangerous_dml_token _ is_dangerous_upper_token).
  destruct (find is_dangerous_dml_token (preorder_statement st)) as [t|];
    [|reflexivity].
  cbn [option_map nested_verdict]. unfold value.
  rewrite token_str_upper_token, upper_idem. reflexivity.
Qed.

Lemma check_statement_upper self st :
  _check_statement_safety self (map upper_token st)
  = _check_statement_safety self st.
Proof.
  destruct (first_token st) as [tok|] eqn:Ht.
  - rewrite (check_statement_verb self st tok Ht).
    rewrite (check_statement_verb self (map upper_token st) (upper_token tok))
      by (rewrite first_token_upper, Ht; reflexivity).
    rewrite extract_sql_keyword_upper_token.
    unfold _check_select_safety.
    rewrite statement_str_upper, upper_idem, check_nested_upper. reflexivity.
  - unfold _check_statement_safety.
    fold (first_token (map upper_token st)). fold (first_token st).
    rewrite first_token_upper, Ht. reflexivity.
Qed.

Lemma check_statements_upper self parsed :
  check_statements self (map (map upper_token) parsed)
  = check_statements self parsed.
Proof.
  induction parsed as [|st r IH]; [reflexivity|].
  cbn [map check_statements]. rewrite check_statement_upper, IH. reflexivity.
Qed.

(** X8. The statement check does not look at letter case: two statements
    whose token trees agree once every leaf value is put in upper case get
    the same decision and the same message, and so do two batches of such
    statements.  Writing a keyword in lower or mixed case changes
    nothing. *)
Theorem statement_check_ignores_case
  (self : PostgreSQLHandler) (st1 st2 : statement)
  (batch1 batch2 : list statement) :
  (map upper_token st1 = map upper_token st2 ->
   _check_statement_safety self st1 = _check_statement_safety self st2) /\
  (map (map upper_token) batch1 = map (map upper_token) batch2 ->
   check_statements self batch1 = check_statements self batch2).
Proof.
  split; intro H.
  - rewrite <- (check_statement_upper self st1), H.
    apply check_statement_upper.
  - rewrite <- (check_statements_upper self batch1), H.
    apply check_statements_upper.
Qed.

Lemma statement_check_ignores_case_witness :
  _check_statement_safety enforced
    [ dml "Delete"; ws; kw "from"; ws; ident "Orders" ]
  = _check_statement_safety enforced
      [ dml "DELETE"; ws; kw "FROM"; ws; ident "ORDERS" ].
Proof.
  apply (proj1 (statement_check_ignores_case enforced
                  [ dml "Delete"; ws; kw "from"; ws; ident "Orders" ]
                  [ dml "DELETE"; ws; kw "FROM"; ws; ident "ORDERS" ]
                  [] [])).
  reflexivity.
Defined.

(** X9. The keyword [_extract_sql_keyword] returns holds no lower-case
    ASCII letter, whatever the token: putting it in upper case again
    leaves it unchanged.  The comparison with the upper-case permitted
    commands is therefore independent of how the statement was typed. *)
Theorem extracted_keyword_is_upper_case (tok : token) :
  upper (_extract_sql_keyword tok) = _extract_sql_keyword tok /\
  all_chars (fun c => negb (is_ascii_lower c)) (_extract_sql_keyword tok)
  = true.
Proof.
  assert (Hup : upper (_extract_sql_keyword tok) = _extract_sql_keyword tok).
  { induction tok as [ty v|ts IH] using token_ind.
    - rewrite extract_sql_keyword_leaf.
      destruct (_ || _); [apply upper_idem|].
      rewrite upper_strip, upper_idem. reflexivity.
    - rewrite extract_sql_keyword_group.
      generalize (token_str (TokenList ts)) as text. intro text.
      induction IH as [|t ts Ht _ IHts].
      + cbn [find]. rewrite upper_strip, upper_idem. reflexivity.
      + cbn [find]. destruct (negb (is_whitespace t)); [exact Ht|exact IHts]. }
  split; [exact Hup|].
  revert Hup. generalize (_extract_sql_keyword tok) as s.
  induction s as [|c s IH]; [reflexivity|].
  cbn [upper all_chars]. intro H. injection H as Hc Hs.
  rewrite (IH Hs), andb_true_r.
  unfold upper_char in Hc. destruct (is_ascii_lower c) eqn:E; [|reflexivity].
  exfalso. unfold is_ascii_lower, in_range in E.
  apply andb_true_iff in E as [Hlo Hhi]. apply Nat.leb_le in Hlo, Hhi.
  apply (f_equal nat_of_ascii) in Hc.
  rewrite nat_ascii_embedding in Hc by lia. lia.
Qed.

(** *** Table names *)

Lemma name_tail_spec s :
  name_tail s = true <->
  exists w, all_chars is_word w = true /\
            (s = w \/ s = w ++ String "010" "").
Proof.
  induction s as [|c s IH]; cbn [name_tail].
  - split; [|reflexivity]. intros _. exists "". split; [reflexivity|].
    left. reflexivity.
  - destruct (is_word c) eqn:Hc.
    + rewrite IH. split.
      * intros [w [Hw Hs]]. exists (String c w). cbn [all_chars append].
        rewrite Hc, Hw. split; [reflexivity|].
        destruct Hs as [->| ->]; [left|right]; reflexivity.
      * intros [[|c' w] [Hw Hs]].
        -- destruct Hs as [Hs|Hs]; [discriminate Hs|].
           cbn [append] in Hs. injection Hs as -> _. discriminate Hc.
        -- cbn [all_chars] in Hw. apply andb_true_iff in Hw as [_ Hw].
           exists w. split; [exact Hw|].
           destruct Hs as [Hs|Hs]; cbn [append] in Hs; injection Hs as _ ->;
             [left|right]; reflexivity.
    + split.
      * intro H. apply andb_true_iff in H as [H1 H2].
        apply Ascii.eqb_eq in H1. apply String.eqb_eq in H2. subst c s.
        exists "". split; [reflexivity|]. right. reflexivity.
      * intros [[|c' w] [Hw Hs]].
        -- destruct Hs as [Hs|Hs]; [discriminate Hs|].
           cbn [append] in Hs. injection Hs as -> ->. reflexivity.
        -- cbn [all_chars] in Hw. apply andb_true_iff in Hw as [Hc' _].
           destruct Hs as [Hs|Hs]; cbn [append] in Hs; injection Hs as -> _;
             congruence.
Qed.

(** X10. [describe_table] goes on to the database only with a table name
    made of an ASCII letter or underscore followed by ASCII letters,
    digits and underscores -- or such a name followed by one line feed,
    which the [$] of the pattern lets through.  Every other name, the
    empty one included, raises the invalid-name error before a connection
    is opened; the name is passed on unchanged. *)
Theorem describe_table_accepts_identifiers (table_name : string) :
  (describe_table table_name = Return table_name <->
   exists c w,
     is_name_start c = true /\ all_chars is_word w = true /\
     (table_name = String c w \/ table_name = String c (w ++ String "010" "")))
  /\
  (forall name, describe_table table_name = Return name -> name = table_name)
  /\
  (forall e, describe_table table_name = Raise e ->
     e = "获取表 '" ++ table_name ++ "' 结构失败: 无效的表名格式").
Proof.
  unfold describe_table. split; [|split].
  - destruct table_name as [|c s]; cbn [valid_table_name negb].
    + split; [discriminate|]. intros [c [w [_ [_ [H|H]]]]]; discriminate H.
    + destruct (is_name_start c) eqn:Hc; cbn [andb].
      * destruct (name_tail s) eqn:Ht; cbn [negb].
        -- split; [intros _|reflexivity].
           apply name_tail_spec in Ht as [w [Hw Hs]]. exists c, w.
           repeat split; try assumption.
           destruct Hs as [->| ->]; [left|right]; reflexivity.
        -- split; [discriminate|]. intros [c' [w [_ [Hw Hs]]]]. exfalso.
           assert (name_tail s = true); [|congruence].
           apply name_tail_spec. exists w. split; [exact Hw|].
           destruct Hs as [Hs|Hs]; injection Hs as _ ->; [left|right];
             reflexivity.
      * split; [discriminate|]. intros [c' [w [Hc' [_ Hs]]]].
        destruct Hs as [Hs|Hs]; injection Hs as -> _; congruence.
  - intros name. destruct (negb _); [discriminate|].
    intro H. injection H as <-. reflexivity.
  - intros e. destruct (negb _); [|discriminate].
    intro H. injection H as <-. reflexivity.
Qed.

Lemma describe_table_accepts_identifiers_witness :
  describe_table "order_items2" = Return "order_items2" /\
  describe_table "users
" = Return "users
" /\
  describe_table "public.users"
    = Raise "获取表 'public.users' 结构失败: 无效的表名格式".
Proof.
  split; [|split].
  - apply (proj1 (describe_table_accepts_identifiers "order_items2")).
    exists "o"%char, "rder_items2". repeat split. left. reflexivity.
  - apply (proj1 (describe_table_accepts_identifiers _)).
    exists "u"%char, "sers". repeat split. right. reflexivity.
  - destruct (describe_table "public.users") as [name|e] eqn:E.
    + discriminate E.
    + rewrite (proj2 (proj2 (describe_table_accepts_identifiers
                 "public.users")) e E). reflexivity.
Defined.

(** *** The database list *)

Lemma append_nonempty_differs (s suffix : string) :
  suffix <> "" -> s ++ suffix <> s.
Proof.
  intros Hne H. apply (f_equal String.length) in H.
  assert (Hlen : forall a b, String.length (a ++ b)
                             = String.length a + String.length b).
  { induction a as [|c a IH]; intro b; cbn [append String.length];
      [reflexivity | rewrite IH; reflexivity]. }
  rewrite Hlen in H. destruct suffix; [elim Hne; reflexivity|].
  cbn [String.length] in H. lia.
Qed.

(** X11. [list_databases] returns as many entries as there are rows, in
    the same order; the configured database never appears bare in the
    result: wherever it occurs it carries the mark, and a list without it
    is returned unchanged. *)
Theorem list_databases_marks_current
  (self : PostgreSQLHandler) (db_list : list string) :
  List.length (list_databases self db_list) = List.length db_list /\
  ~ In (database self) (list_databases self db_list) /\
  (forall i db, nth_error db_list i = Some db ->
     nth_error (list_databases self db_list) i
     = Some (if String.eqb db (database self)
             then database self ++ " (当前配置的数据库)" else db)) /\
  (~ In (database self) db_list -> list_databases self db_list = db_list).
Proof.
  unfold list_databases. split; [apply length_map|]. split; [|split].
  - intro Hin. apply in_map_iff in Hin as [db [Hdb _]].
    destruct (String.eqb_spec db (database self)) as [E|Hne].
    + rewrite E in Hdb. revert Hdb. apply append_nonempty_differs.
      discriminate.
    + elim Hne. exact Hdb.
  - intros i db Hnth. rewrite nth_error_map, Hnth. cbn [option_map].
    destruct (String.eqb_spec db (database self)) as [E|_];
      [rewrite E|]; reflexivity.
  - induction db_list as [|db r IH]; intro Hnot; [reflexivity|].
    cbn [map]. rewrite IH by (intro H; apply Hnot; right; exact H).
    destruct (String.eqb_spec db (database self)) as [E|_];
      [elim Hnot; left; exact E | reflexivity].
Qed.

Lemma list_databases_marks_current_witness :
  list_databases enforced ["appdb"; "postgres"]
  = ["appdb (当前配置的数据库)"; "postgres"]
  /\ list_databases enforced ["postgres"; "crm"] = ["postgres"; "crm"].
Proof.
  split; [reflexivity|].
  apply (proj2 (proj2 (proj2
           (list_databases_marks_current enforced ["postgres"; "crm"])))).
  cbn. intros [H|[H|[]]]; discriminate H.
Defined.

(** *** Construction from the environment *)

Lemma require_env_spec env name v :
  require_env env name = Return v <-> env name = Some v /\ v <> "".
Proof.
  unfold require_env. destruct (env name) as [v'|].
  - destruct (String.eqb_spec v' "") as [->|Hne]; split.
    + discriminate.
    + intros [H Hv]. injection H as <-. elim Hv. reflexivity.
    + intro H. injection H as <-. split; [reflexivity | exact Hne].
    + intros [H _]. injection H as <-. reflexivity.
  - split; [discriminate | intros [H _]; discriminate H].
Qed.

Lemma require_env_truthy env name :
  (exists v, require_env env name = Return v) <-> truthy (env name) = true.
Proof.
  unfold require_env, truthy. destruct (env name) as [v|].
  - destruct (String.eqb v ""); cbn [negb]; split;
      try discriminate; try (intros [v' H]; discriminate H); eauto.
  - split; [intros [v H]; discriminate H | discriminate].
Qed.

Lemma str_in_colon_cons c s :
  str_in ":" (String c s) = Ascii.eqb c ":" || str_in ":" s.
Proof.
  cbn [str_in String.prefix].
  destruct (ascii_dec ":" c) as [<-|Hne].
  - destruct s; reflexivity.
  - destruct (Ascii.eqb_spec c ":"%char) as [->|_];
      [elim Hne; reflexivity | reflexivity].
Qed.

Lemma split_colon_spec s :
  str_in ":" s = true ->
  s = fst (split_colon s) ++ ":" ++ snd (split_colon s) /\
  str_in ":" (fst (split_colon s)) = false.
Proof.
  induction s as [|c s IH]; [discriminate|].
  rewrite str_in_colon_cons. cbn [split_colon].
  destruct (Ascii.eqb_spec c ":"%char) as [->|Hne]; cbn [orb].
  - intros _. split; reflexivity.
  - intro H. destruct (IH H) as [Hs Hh].
    destruct (split_colon s) as [h p]. cbn [fst snd] in *.
    split; [rewrite Hs at 1; reflexivity|].
    rewrite str_in_colon_cons, Hh.
    destruct (Ascii.eqb_spec c ":"%char); [contradiction | reflexivity].
Qed.

Lemma init_inv int default_locale env cfg h :
  __init__ int default_locale env = Return (cfg, h) ->
  exists pg_host,
    require_env env "PG_HOST" = Return pg_host /\
    (if str_in ":" pg_host
     then host cfg = fst (split_colon pg_host) /\
          int (snd (split_colon pg_host)) = Return (port cfg)
     else host cfg = pg_host /\ port cfg = 5432%Z) /\
    require_env env "PG_USER" = Return (user cfg) /\
    require_env env "PG_PASSWORD" = Return (password cfg) /\
    require_env env "PG_DATABASE" = Return (database h) /\
    is_chinese h = _detect_chinese_locale default_locale env /\
    allow_dangerous_operations h
    = String.eqb (lower (getenv_default env "PG_ALLOW_DANGEROUS" "false"))
        "true".
Proof.
  unfold __init__.
  destruct (require_env env "PG_HOST") as [pg_host|e]; [|discriminate].
  cbn [bind]. intro H. exists pg_host. split; [reflexivity|].
  destruct (str_in ":" pg_host).
  - destruct (split_colon pg_host) as [hst port_str]. cbn [fst snd].
    destruct (int port_str) as [n|e]; [|discriminate H]. cbn [bind] in H.
    destruct (require_env env "PG_USER") as [usr|e]; [|discriminate H].
    destruct (require_env env "PG_PASSWORD") as [pwd|e]; [|discriminate H].
    destruct (require_env env "PG_DATABASE") as [db|e]; [|discriminate H].
    cbn [bind fst snd] in H. injection H as <- <-. repeat split.
  - cbn [bind] in H.
    destruct (require_env env "PG_USER") as [usr|e]; [|discriminate H].
    destruct (require_env env "PG_PASSWORD") as [pwd|e]; [|discriminate H].
    destruct (require_env env "PG_DATABASE") as [db|e]; [|discriminate H].
    cbn [bind fst snd] in H. injection H as <- <-. repeat split.
Qed.

(** X12. [__init__] builds a handler exactly when PG_HOST, PG_USER,
    PG_PASSWORD and PG_DATABASE are all set and not empty and, if PG_HOST
    holds a colon, [int] accepts what follows the first colon.  In every
    other case it raises; with PG_HOST unset or empty the error is the one
    that names PG_HOST, whatever else is missing. *)
Theorem init_succeeds_iff
  (int : string -> result Z)
  (default_locale : result (option string)) (env : environ) :
  ((exists cfg h, __init__ int default_locale env = Return (cfg, h)) <->
   truthy (env "PG_HOST") = true /\ truthy (env "PG_USER") = true /\
   truthy (env "PG_PASSWORD") = true /\ truthy (env "PG_DATABASE") = true /\
   (forall pg_host, env "PG_HOST" = Some pg_host ->
      str_in ":" pg_host = true ->
      exists n, int (snd (split_colon pg_host)) = Return n)) /\
  (truthy (env "PG_HOST") = false ->
   __init__ int default_locale env = Raise "PG_HOST环境变量未设置").
Proof.
  split.
  - split.
    + intros [cfg [h H]].
      apply init_inv in H as [pg_host [Hh [Hp [Hu [Hpw [Hd _]]]]]].
      repeat split; try (apply require_env_truthy; eauto).
      intros hp Hhp Hcolon. apply require_env_spec in Hh as [Hh _].
      rewrite Hh in Hhp. injection Hhp as <-. rewrite Hcolon in Hp.
      exists (port cfg). exact (proj2 Hp).
    + intros [Hh [Hu [Hpw [Hd Hport]]]].
      apply require_env_truthy in Hh as [pg_host Hh].
      apply require_env_truthy in Hu as [usr Hu].
      apply require_env_truthy in Hpw as [pwd Hpw].
      apply require_env_truthy in Hd as [db Hd].
      unfold __init__. rewrite Hh, Hu, Hpw, Hd. cbn [bind].
      destruct (str_in ":" pg_host) eqn:Hcolon.
      * apply require_env_spec in Hh as [Hh _].
        destruct (Hport pg_host Hh Hcolon) as [n Hn].
        destruct (split_colon pg_host) as [hst port_str]. cbn [snd] in Hn.
        rewrite Hn. cbn [bind]. eauto.
      * cbn [bind]. eauto.
  - intro Hh. unfold __init__, require_env, truthy in *.
    destruct (env "PG_HOST") as [v|]; [|reflexivity].
    destruct (String.eqb v ""); [reflexivity | discriminate Hh].
Qed.

Lemma init_succeeds_iff_witness :
  (exists cfg h, __init__ sample_int (Return None) sample_env
                 = Return (cfg, h)) /\
  ~ (exists cfg h, __init__ sample_int (Return None) incomplete_env
                   = Return (cfg, h)).
Proof.
  split.
  - apply (proj1 (init_succeeds_iff sample_int (Return None) sample_env)).
    repeat split. intros pg_host H _. injection H as <-.
    exists 6543%Z. reflexivity.
  - intro H.
    apply (proj1 (init_succeeds_iff sample_int (Return None) incomplete_env))
      in H.
    destruct H as [_ [_ [H _]]]. discriminate H.
Defined.

(** X13. A handler built by [__init__] carries the environment's values:
    user, password and database are those of PG_USER, PG_PASSWORD and
    PG_DATABASE.  If PG_HOST holds a colon, the host is what stands before
    the first colon -- it holds no colon, and may be empty -- and the port
    is [int] of all that follows it, so that host, colon and port text
    give PG_HOST back; without a colon the host is PG_HOST and the port is
    5432. *)
Theorem init_reads_environment
  (int : string -> result Z)
  (default_locale : result (option string)) (env : environ)
  (cfg : connection_settings) (h : PostgreSQLHandler) (pg_host : string) :
  __init__ int default_locale env = Return (cfg, h) ->
  env "PG_HOST" = Some pg_host ->
  (str_in ":" pg_host = true ->
   exists port_str,
     pg_host = host cfg ++ ":" ++ port_str /\
     str_in ":" (host cfg) = false /\
     int port_str = Return (port cfg)) /\
  (str_in ":" pg_host = false -> host cfg = pg_host /\ port cfg = 5432%Z) /\
  env "PG_USER" = Some (user cfg) /\
  env "PG_PASSWORD" = Some (password cfg) /\
  env "PG_DATABASE" = Some (database h).
Proof.
  intros Hinit Hhost.
  apply init_inv in Hinit as [hp [Hh [Hp [Hu [Hpw [Hd _]]]]]].
  apply require_env_spec in Hh as [Hh _]. rewrite Hh in Hhost.
  injection Hhost as ->.
  apply require_env_spec in Hu as [Hu _].
  apply require_env_spec in Hpw as [Hpw _].
  apply require_env_spec in Hd as [Hd _].
  repeat split; try assumption.
  - intro Hcolon. rewrite Hcolon in Hp. destruct Hp as [Hhst Hport].
    destruct (split_colon_spec pg_host Hcolon) as [Hs Hno].
    exists (snd (split_colon pg_host)). rewrite Hhst.
    repeat split; assumption.
  - rewrite H in Hp. exact (proj1 Hp).
  - rewrite H in Hp. exact (proj2 Hp).
Qed.

Lemma init_reads_environment_witness :
  exists port_str,
    "db.internal:6543" = "db.internal" ++ ":" ++ port_str /\
    str_in ":" "db.internal" = false /\
    sample_int port_str = Return 6543%Z.
Proof.
  exact (proj1 (init_reads_environment sample_int (Return None) sample_env
                  {| host := "db.internal"; port := 6543%Z;
                     user := "reader"; password := "s3cret" |}
                  {| is_chinese := false; database := "appdb";
                     allow_dangerous_operations := false |}
                  "db.internal:6543" eq_refl eq_refl) eq_refl).
Defined.

(** X14. A handler built by [__init__] is permissive only if
    PG_ALLOW_DANGEROUS is set to the word true in some mix of cases;
    unset, empty or set to anything else -- yes, 1, true with a space --
    it is enforced.  With the variable unset, the handler therefore
    accepts a query only if the parser returns statements that are all
    admissible. *)
Theorem init_is_enforced_by_default
  (int : string -> result Z)
  (default_locale : result (option string)) (env : environ)
  (cfg : connection_settings) (h : PostgreSQLHandler) :
  __init__ int default_locale env = Return (cfg, h) ->
  (allow_dangerous_operations h = true <->
   exists v, env "PG_ALLOW_DANGEROUS" = Some v /\ lower v = "true") /\
  (env "PG_ALLOW_DANGEROUS" = None ->
   forall (parse : string -> result (list statement)) (query : string),
     fst (is_query_safe parse h query) = true ->
     exists st r, parse query = Return (st :: r) /\
                  Forall statement_admissible (st :: r)).
Proof.
  intro Hinit.
  apply init_inv in Hinit as [_ [_ [_ [_ [_ [_ [_ Hmode]]]]]]].
  unfold getenv_default in Hmode.
  assert (Hiff : allow_dangerous_operations h = true <->
            exists v, env "PG_ALLOW_DANGEROUS" = Some v /\ lower v = "true").
  { rewrite Hmode. destruct (env "PG_ALLOW_DANGEROUS") as [v|].
    - rewrite String.eqb_eq. split.
      + intro H. exists v. split; [reflexivity | exact H].
      + intros [v' [H Hv]]. injection H as <-. exact Hv.
    - split; [discriminate | intros [v [H _]]; discriminate H]. }
  split; [exact Hiff|].
  intros Hunset parse query Hsafe.
  apply (is_query_safe_accepts_spec parse h query); [|exact Hsafe].
  destruct (allow_dangerous_operations h) eqn:E; [|reflexivity].
  destruct (proj1 Hiff eq_refl) as [v [H _]].
  rewrite Hunset in H. discriminate H.
Qed.

Lemma init_is_enforced_by_default_witness :
  ~ (exists v, sample_env "PG_ALLOW_DANGEROUS" = Some v /\ lower v = "true").
Proof.
  intro H.
  apply (proj1 (init_is_enforced_by_default sample_int (Return None)
                  sample_env
                  {| host := "db.internal"; port := 6543%Z;
                     user := "reader"; password := "s3cret" |}
                  {| is_chinese := false; database := "appdb";
                     allow_dangerous_operations := false |}
                  eq_refl)) in H.
  discriminate H.
Defined.

(** X15. Neither the message language nor the configured database has a
    part in a decision: two handlers in the same mode agree, on every
    query, on whether [is_query_safe] allows it, on whether
    [validate_database_context] allows it, and on whether [execute_query]
    sends it to the database. *)
Theorem decisions_ignore_language_and_database
  (parse : string -> result (list statement))
  (self other : PostgreSQLHandler) (query : string) :
  allow_dangerous_operations self = allow_dangerous_operations other ->
  fst (is_query_safe parse self query) = fst (is_query_safe parse other query)
  /\
  fst (validate_database_context self query)
  = fst (validate_database_context other query) /\
  (execute_query parse self query = SentToDatabase query <->
   execute_query parse other query = SentToDatabase query).
Proof.
  intro Hmode. split; [|split].
  - unfold is_query_safe, is_query_safe_body. rewrite <- Hmode.
    destruct (allow_dangerous_operations self); [reflexivity|].
    destruct (parse query) as [[|st r]|e]; try reflexivity.
    pose proof (check_statements_accepts_iff self (st :: r)) as H1.
    pose proof (check_statements_accepts_iff other (st :: r)) as H2.
    destruct (fst (check_statements self (st :: r))),
             (fst (check_statements other (st :: r))); try reflexivity.
    + symmetry. apply H2, H1. reflexivity.
    + apply H1, H2. reflexivity.
  - unfold validate_database_context.
    destruct (_ || _); reflexivity.
  - rewrite (proj1 (execute_query_sends_spec parse self query)).
    rewrite (proj1 (execute_query_sends_spec parse other query)).
    rewrite Hmode. reflexivity.
Qed.

Lemma decisions_ignore_language_and_database_witness :
  fst (is_query_safe sample_parse
         {| is_chinese := true; database := "crm";
            allow_dangerous_operations := false |} q_union)
  = fst (is_query_safe sample_parse enforced q_union).
Proof.
  apply (decisions_ignore_language_and_database sample_parse
           {| is_chinese := true; database := "crm";
              allow_dangerous_operations := false |} enforced q_union).
  reflexivity.
Defined.
